(** * junos_exporter: the per-target SNMP collection engine

    A shallow embedding of [junos_collector.go].  The Go code mutates a
    [*scope] and sends metrics on a channel; here every function takes the
    scope and returns the updated one.  A run-time panic (a failed type
    assertion, an index out of range, a call through a nil interface) ends the
    computation with [Panic]: Go would unwind the goroutine and, nothing
    recovering, stop the process.

    The transport (gosnmp) and the metrics registry (client_golang) are
    libraries outside the repository; they are modelled by the interface the
    collector relies on: [Connect] answers with an optional error, [Walk] hands
    the rows of a table to a callback until the table is exhausted, the request
    fails or the callback returns an error, and [NewConstMetric] rejects a
    label list whose length differs from the descriptor's. *)

From Stdlib Require Import ZArith String Ascii List Lia.
From Stdlib Require PrimFloat Uint63.
From stdpp Require Import base option list gmap strings.


(** ** Outcomes: a value, or a Go run-time panic *)

Inductive panic : Type :=
  | TypeAssertion      (* interface conversion: x.(T) on a value that is not a T *)
  | IndexOutOfRange    (* l[i] with i outside [0, len l) *)
  | NilDereference.    (* method call through a nil interface *)

Inductive outcome (A : Type) : Type :=
  | Ok (a : A)
  | Panic (why : panic).
Arguments Ok {A} a.
Arguments Panic {A} why.

Global Instance outcome_ret : MRet outcome := fun _ a => Ok a.
Global Instance outcome_bind : MBind outcome := fun _ _ k m =>
  match m with
  | Ok a => k a
  | Panic why => Panic why
  end.

Definition completes {A} (m : outcome A) : Prop :=
  match m with Ok _ => True | Panic _ => False end.

(** ** strings.Split and getId *)

(** [strings.Split(s, sep)] for a one-byte separator, the only use the
    collector makes of it.  The result is never empty: a string without the
    separator is returned whole, the empty string gives [[""]]. *)
Fixpoint Split (s : string) (sep : ascii) : list string :=
  match s with
  | EmptyString => [EmptyString]
  | String a rest =>
      if Ascii.eqb a sep then EmptyString :: Split rest sep
      else match Split rest sep with
           | [] => [String a EmptyString]
           | t :: ts => String a t :: ts
           end
  end.

Definition dot : ascii := "."%char.

(** [t[len(t)-1]]; the index is in range because [Split] never returns an
    empty slice ([Split_length_pos] below), so the default is never read. *)
Definition getId (oid : string) : string :=
  let t := Split oid dot in
  nth (length t - 1) t EmptyString.

(** ** Slices of strings and their backing arrays

    The label table maps a row index to a Go slice, and [append] may write
    into the backing array of its argument.  A slice is a window
    (address, length, capacity) on an array of the store. *)

Record slice : Type := Slice { base : nat; len : nat; cap : nat }.

(** The zero value of a slice type, also what a map lookup of an absent key
    returns. *)
Definition nilSlice : slice := Slice 0 0 0.

Abbreviation store := (list (list string)).

Definition arrayAt (h : store) (a : nat) : list string := default [] (h !! a).

(** The elements [sl[0..len)]. *)
Definition elems (h : store) (sl : slice) : list string :=
  take (len sl) (arrayAt h (base sl)).

(** [make([]string, n)]: a fresh zeroed array, length and capacity [n]. *)
Definition makeStrings (n : nat) (h : store) : slice * store :=
  (Slice (length h) n n, h ++ [replicate n EmptyString]).

(** [sl[i] = v], with Go's bounds check against the length. *)
Definition setIndex (sl : slice) (i : nat) (v : string) (h : store) : outcome store :=
  if decide (i < len sl)
  then Ok (<[base sl := <[i := v]> (arrayAt h (base sl))]> h)
  else Panic IndexOutOfRange.

(** Capacity chosen when [append] must reallocate.  Go promises only an array
    that is large enough; doubling is what the runtime does for small slices. *)
Definition growCap (old needed : nat) : nat := Nat.max needed (2 * old).

(** [append(sl, x)]: in place when there is spare capacity (the write lands in
    the array shared with every other slice on it), otherwise into a fresh
    array holding a copy. *)
Definition append (sl : slice) (x : string) (h : store) : slice * store :=
  if decide (len sl < cap sl)
  then (Slice (base sl) (S (len sl)) (cap sl),
        <[base sl := <[len sl := x]> (arrayAt h (base sl))]> h)
  else let c := growCap (cap sl) (S (len sl)) in
       (Slice (length h) (S (len sl)) c,
        h ++ [(elems h sl ++ [x]) ++ replicate (c - S (len sl)) EmptyString]).

(** ** Descriptors and metrics (prometheus) *)

Record Desc : Type := NewDesc {
  fqName : string;
  help : string;
  variableLabels : list string;
}.

Inductive ValueType : Type := CounterValue | GaugeValue | UntypedValue.

(** A float64 is given by its value.  Every float64 this program builds is
    the conversion of an unsigned integer (0, 1, a counter, a counter divided
    by 8), hence an integer itself; [isFloat64] below says which integers are
    values of a float64, and [roundFloat64] is the conversion. *)
Abbreviation float64 := Z (only parsing).

(** A constant metric, with its float64 value. *)
Record Metric : Type := ConstMetric {
  desc : Desc;
  valueType : ValueType;
  value : float64;
  labelValues : list string;
}.

Global Instance Desc_eq_dec : EqDecision Desc.
Proof. solve_decision. Defined.
Global Instance ValueType_eq_dec : EqDecision ValueType.
Proof. solve_decision. Defined.
Global Instance Metric_eq_dec : EqDecision Metric.
Proof. solve_decision. Defined.

Inductive error : Type :=
  | TransportError (code : nat)        (* whatever gosnmp reports *)
  | errInconsistentCardinality.        (* prometheus: wrong number of label values *)

Global Instance error_eq_dec : EqDecision error.
Proof. solve_decision. Defined.

(** [prometheus.NewConstMetric]: an error when the number of label values is
    not the number of the descriptor's variable labels. *)
Definition NewConstMetric (d : Desc) (vt : ValueType) (v : Z) (lvs : list string)
  : Metric + error :=
  if decide (length (variableLabels d) = length lvs)
  then inl (ConstMetric d vt v lvs)
  else inr errInconsistentCardinality.

Definition prefix : string := "junos_".
Definition numberOfInterfaceLabels : nat := 2.

(** The descriptors built by [init]. *)
Definition upDesc : Desc :=
  NewDesc (prefix +:+ "up") "Scrape of target was successful" ["target"].

(** The local [l] of [init]: the label names of the interface descriptors. *)
Definition interfaceLabelNames : list string := ["name"; "description"; "target"].

Definition receiveBytesDesc : Desc :=
  NewDesc (prefix +:+ "interface_receive_bytes") "Received data in bytes" interfaceLabelNames.
Definition receiveErrorsDesc : Desc :=
  NewDesc (prefix +:+ "interface_receive_errors")
          "Number of errors caused by incoming packets" interfaceLabelNames.
Definition receiveDropsDesc : Desc :=
  NewDesc (prefix +:+ "interface_receive_drops") "Number of dropped incoming packets" interfaceLabelNames.
Definition transmitBytesDesc : Desc :=
  NewDesc (prefix +:+ "interface_transmit_bytes") "Transmitted data in bytes" interfaceLabelNames.
Definition transmitErrorsDesc : Desc :=
  NewDesc (prefix +:+ "interface_transmit_errors")
          "Number of errors caused by outgoing packets" interfaceLabelNames.
Definition transmitDropsDesc : Desc :=
  NewDesc (prefix +:+ "interface_transmit_drops") "Number of dropped outgoing packets" interfaceLabelNames.

(** ** Value converters

    [type ValueConverter func(uint) float64].  A Go [uint] is a 64-bit word on
    the platforms the exporter is built for. *)

Definition uintBits : Z := 64.
Definition wrapUint (z : Z) : Z := (z mod 2 ^ uintBits)%Z.


(** [float64(z)] for an unsigned integer [z]: the nearest float64, ties to the
    even significand.  Below 2^53 nothing is lost; from there on the low
    [Z.log2 z - 52] bits are rounded away. *)
Definition roundFloat64 (z : Z) : float64 :=
  if (z <? 2 ^ 53)%Z then z
  else
    let e := (Z.log2 z - 52)%Z in
    let q := (z / 2 ^ e)%Z in
    let r := (z mod 2 ^ e)%Z in
    let half := (2 ^ (e - 1))%Z in
    let q' := if (r <? half)%Z then q
              else if (half <? r)%Z then (q + 1)%Z
              else if Z.even q then q else (q + 1)%Z in
    (q' * 2 ^ e)%Z.

(** The kernel's binary64 conversion of an unsigned integer below 2^63, to
    check [roundFloat64] against. *)
Definition kernelFloat64 (z : Z) : PrimFloat.float :=
  PrimFloat.of_uint63 (Uint63.of_Z z).

(** [type ValueConverter func(uint) float64] *)
Definition ValueConverter : Type := Z -> float64.

(** Modelled from the spec: [bitsToBytes] is called by [collectMetrics] but
    defined in a file of the repository that is not part of the sources at
    hand.  The spec gives it as [v/8], the integer division of the unsigned
    word (the quotient is computed in the word, hence the wrap); the result
    type of a converter is float64, hence the conversion. *)
Definition bitsToBytes : ValueConverter := fun v => roundFloat64 (wrapUint (v / 8)).

(** Modelled from the spec: [noConvert], the identity converter, is missing
    from the sources at hand like [bitsToBytes]; its result is the argument
    as a float64. *)
Definition noConvert : ValueConverter := fun v => roundFloat64 v.

(** ** The transport: gosnmp as the collector sees it *)

(** The dynamic type of [SnmpPDU.Value], an [interface{}]. *)
Inductive PduValue : Type :=
  | VNil                               (* Null, NoSuchObject, EndOfMibView *)
  | VInt (z : Z)                       (* Integer: int *)
  | VBytes (b : list Byte.byte)        (* OctetString: []byte *)
  | VUint (v : Z)                      (* Counter32, Gauge32: uint *)
  | VUint64 (v : Z)                    (* Counter64: uint64 *)
  | VString (s : string).              (* ObjectIdentifier, IPAddress: string *)

Record SnmpPDU : Type := { Name : string; Value : PduValue }.

(** What a device answers: the result of session setup and, for each table
    OID, the rows a walk delivers in order and the error the walk ends with
    when a request fails after those rows. *)
Record Device : Type := {
  connectResult : option error;
  tables : string -> list SnmpPDU * option error;
}.

(** The fields of [gosnmp.GoSNMP] the collector sets; [Conn] is whether the
    connection is there (non-nil). *)
Record GoSNMP : Type := {
  Target : string;
  Community : string;
  Port : Z;
  Timeout : Z;                          (* seconds *)
  Version : Z;
  Conn : bool;
}.

(** Operations performed on the transport, in order, with what they
    answered. *)
Inductive call : Type :=
  | CallConnect (r : option error)           (* Connect returned [r] *)
  | CallWalk (oid : string)                  (* Walk of [oid] entered *)
  | CallRow (oid : string) (name : string)   (* the walk of [oid] hands a row to its callback *)
  | CallReturn (oid : string) (r : option error)  (* Walk of [oid] returned [r] *)
  | CallClose.

Global Instance call_eq_dec : EqDecision call.
Proof. solve_decision. Defined.

(** ** The scope of one target

    [interfaceLabels], [snmp], [ch] and [err] are the fields of the Go
    struct.  [ch] lists what has been sent on the channel through this scope,
    oldest first ([None] is a nil [Metric]).  [arrays] is the part of the Go
    heap that holds the backing arrays of string slices, and [calls] the
    history of transport operations; neither is a field in Go. *)
Record scope : Type := {
  interfaceLabels : gmap string slice;
  snmp : GoSNMP;
  ch : list (option Metric);
  err : option error;
  arrays : store;
  calls : list call;
}.

Definition set_interfaceLabels (m : gmap string slice) (s : scope) : scope :=
  {| interfaceLabels := m; snmp := snmp s; ch := ch s; err := err s;
     arrays := arrays s; calls := calls s |}.
Definition set_snmp (g : GoSNMP) (s : scope) : scope :=
  {| interfaceLabels := interfaceLabels s; snmp := g; ch := ch s; err := err s;
     arrays := arrays s; calls := calls s |}.
Definition set_err (e : option error) (s : scope) : scope :=
  {| interfaceLabels := interfaceLabels s; snmp := snmp s; ch := ch s; err := e;
     arrays := arrays s; calls := calls s |}.
Definition set_arrays (h : store) (s : scope) : scope :=
  {| interfaceLabels := interfaceLabels s; snmp := snmp s; ch := ch s; err := err s;
     arrays := h; calls := calls s |}.
(** [s.ch <- m] *)
Definition send (m : option Metric) (s : scope) : scope :=
  {| interfaceLabels := interfaceLabels s; snmp := snmp s; ch := ch s ++ [m];
     err := err s; arrays := arrays s; calls := calls s |}.
Definition record (c : call) (s : scope) : scope :=
  {| interfaceLabels := interfaceLabels s; snmp := snmp s; ch := ch s; err := err s;
     arrays := arrays s; calls := calls s ++ [c] |}.
Definition set_Conn (b : bool) (g : GoSNMP) : GoSNMP :=
  {| Target := Target g; Community := Community g; Port := Port g;
     Timeout := Timeout g; Version := Version g; Conn := b |}.

Record JunosCollector : Type := NewJunosCollector {
  targets : list string;
  community : string;
}.

(** ** The collector *)

Section Collector.

(** The network: what the device behind each target address answers. *)
Variable net : string -> Device.

(** [s.snmp.Connect()] *)
Definition Connect (s : scope) : option error * scope :=
  let r := connectResult (net (Target (snmp s))) in
  (r, record (CallConnect r) (set_snmp (set_Conn (bool_decide (r = None)) (snmp s)) s)).

(** The loop of [s.snmp.Walk]: each row goes to the callback; an error from
    the callback ends the walk and is the walk's result; when the rows are
    exhausted the result is the error of the transport, if any. *)
Fixpoint walkRows (oid : string) (rows : list SnmpPDU) (final : option error)
    (walkFn : SnmpPDU -> scope -> outcome (option error * scope)) (s : scope)
  : outcome (option error * scope) :=
  match rows with
  | [] => Ok (final, s)
  | pdu :: rest =>
      r ← walkFn pdu (record (CallRow oid (Name pdu)) s);
      match fst r with
      | Some e => Ok (Some e, snd r)
      | None => walkRows oid rest final walkFn (snd r)
      end
  end.

(** [s.snmp.Walk(oid, walkFn)] *)
Definition Walk (oid : string)
    (walkFn : SnmpPDU -> scope -> outcome (option error * scope)) (s : scope)
  : outcome (option error * scope) :=
  let t := tables (net (Target (snmp s))) oid in
  r ← walkRows oid (fst t) (snd t) walkFn (record (CallWalk oid) s);
  Ok (fst r, record (CallReturn oid (fst r)) (snd r)).

(** [if err != nil && s.err == nil { s.err = err }] *)
Definition keepFirst (e : option error) (s : scope) : scope :=
  match e, err s with
  | Some e, None => set_err (Some e) s
  | _, _ => s
  end.

Definition handlePduAsLabel (c : JunosCollector) (index : nat) (p : SnmpPDU) (s : scope)
  : outcome scope :=
  let id := getId (Name p) in
  let ls :=
    match interfaceLabels s !! id with
    | Some l => (l, s)
    | None =>
        let m := makeStrings numberOfInterfaceLabels (arrays s) in
        (fst m, set_interfaceLabels (<[id := fst m]> (interfaceLabels s))
                  (set_arrays (snd m) s))
    end in
  match Value p with
  | VBytes b =>
      h ← setIndex (fst ls) index (string_of_list_byte b) (arrays (snd ls));
      Ok (set_arrays h (snd ls))
  | _ => Panic TypeAssertion
  end.

Definition fetchInterfaceLabelFromOid (c : JunosCollector) (oid : string) (index : nat)
    (s : scope) : outcome scope :=
  r ← Walk oid (fun pdu s => s' ← handlePduAsLabel c index pdu s; Ok (None, s')) s;
  Ok (keepFirst (fst r) (snd r)).

Definition handlePduAsMetric (c : JunosCollector) (d : Desc) (pdu : SnmpPDU)
    (converter : ValueConverter) (s : scope) : outcome (option error * scope) :=
  let id := getId (Name pdu) in
  match Value pdu with
  | VUint v =>
      let a := append (default nilSlice (interfaceLabels s !! id))
                      (Target (snmp s)) (arrays s) in
      let s := set_arrays (snd a) s in
      match NewConstMetric d GaugeValue (converter v) (elems (arrays s) (fst a)) with
      | inr e => Ok (Some e, s)
      | inl m => Ok (None, send (Some m) s)
      end
  | _ => Panic TypeAssertion
  end.

Definition fetchInterfaceMetricFromOid (c : JunosCollector) (oid : string) (d : Desc)
    (converter : ValueConverter) (s : scope) : outcome scope :=
  r ← Walk oid (fun pdu s => handlePduAsMetric c d pdu converter s) s;
  Ok (keepFirst (fst r) (snd r)).

(** The deferred [s.snmp.Conn.Close()], run when [collectMetrics] returns. *)
Definition Close (s : scope) : scope :=
  record CallClose (set_snmp (set_Conn false (snmp s)) s).

Definition collectMetrics (c : JunosCollector) (s : scope) : outcome scope :=
  let r := Connect s in
  let s := snd r in
  match fst r, err s with
  | Some e, None => Ok (set_err (Some e) s)
  | _, _ =>
      (* defer s.snmp.Conn.Close(): the method value of a nil Conn panics.
         The else branch is reached only when Connect failed on a scope that
         already held a sticky error, which collectForTarget never passes in. *)
      if Conn (snmp s) then
        s ← fetchInterfaceLabelFromOid c ".1.3.6.1.2.1.31.1.1.1.1" 0 s;
        s ← fetchInterfaceLabelFromOid c ".1.3.6.1.2.1.31.1.1.1.18" 1 s;
        s ← fetchInterfaceMetricFromOid c ".1.3.6.1.2.1.2.2.1.10" receiveBytesDesc bitsToBytes s;
        s ← fetchInterfaceMetricFromOid c ".1.3.6.1.2.1.2.2.1.16" transmitBytesDesc bitsToBytes s;
        s ← fetchInterfaceMetricFromOid c ".1.3.6.1.2.1.2.2.1.13" receiveDropsDesc noConvert s;
        s ← fetchInterfaceMetricFromOid c ".1.3.6.1.2.1.2.2.1.14" receiveErrorsDesc noConvert s;
        s ← fetchInterfaceMetricFromOid c ".1.3.6.1.2.1.2.2.1.19" transmitDropsDesc noConvert s;
        s ← fetchInterfaceMetricFromOid c ".1.3.6.1.2.1.2.2.1.20" transmitErrorsDesc noConvert s;
        Ok (Close s)
      else Panic NilDereference
  end.

(** [m, _ := prometheus.NewConstMetric(upDesc, GaugeValue, value, target)]:
    the error is dropped, and with it [m] would be nil. *)
Definition upMetric (c : JunosCollector) (v : Z) (s : scope) : option Metric :=
  match NewConstMetric upDesc GaugeValue v [Target (snmp s)] with
  | inl m => Some m
  | inr _ => None
  end.

(** The scope [collectForTarget] starts from. *)
Definition newScope (c : JunosCollector) (target : string) : scope :=
  {| interfaceLabels := ∅;
     snmp := {| Target := target; Community := community c; Port := 161;
                Timeout := 2; Version := 1; Conn := false |};
     ch := [];
     err := None;
     arrays := [];
     calls := [] |}.

(** One goroutine of [Collect].  The result is the scope at the end; its
    [ch] is everything this goroutine sent. *)
Definition collectForTarget (c : JunosCollector) (target : string) : outcome scope :=
  s ← collectMetrics c (newScope c target);
  match err s with
  | Some _ => Ok (send (upMetric c 0 s) s)
  | None => Ok (send (upMetric c 1 s) s)
  end.

(** [ls] is a merge of the lists [ls]: what a channel may carry when each
    goroutine sends its own list in order. *)
Inductive interleaving {A : Type} : list (list A) -> list A -> Prop :=
  | interleaving_done (ls : list (list A)) :
      Forall (fun x => x = []) ls -> interleaving ls []
  | interleaving_send (pre post : list (list A)) (x : A) (xs out : list A) :
      interleaving (pre ++ xs :: post) out ->
      interleaving (pre ++ (x :: xs) :: post) (x :: out).

(** [Collect]: one goroutine per target, all sending on the same channel,
    and a wait for all of them.  [Collect c sink] says that the call returns
    with [sink] having gone through the channel. *)
Definition Collect (c : JunosCollector) (sink : list (option Metric)) : Prop :=
  exists scopes : list scope,
    Forall2 (fun t s => collectForTarget c t = Ok s) (targets c) scopes
    /\ interleaving (map ch scopes) sink.

Definition Describe (c : JunosCollector) : list Desc :=
  [upDesc; receiveBytesDesc; receiveErrorsDesc; receiveDropsDesc;
   transmitBytesDesc; transmitDropsDesc; transmitErrorsDesc].

End Collector.

(** ** Observations on a run *)

(** The tables walked, in order. *)
Definition walked (cs : list call) : list string :=
  omap (fun c => match c with CallWalk oid => Some oid | _ => None end) cs.

(** The rows of table [oid] handed to the callback, in order. *)
Definition delivered (oid : string) (cs : list call) : list string :=
  omap (fun c => match c with
                 | CallRow o n => if decide (o = oid) then Some n else None
                 | _ => None
                 end) cs.

(** The errors answered by the transport operations, in order. *)
Definition failures (cs : list call) : list error :=
  omap (fun c => match c with
                 | CallConnect r => r
                 | CallReturn _ r => r
                 | _ => None
                 end) cs.

(** A reachability metric of target [t]. *)
Definition isUpFor (t : string) (m : option Metric) : Prop :=
  match m with
  | Some m => desc m = upDesc /\ labelValues m = [t]
  | None => False
  end.

Global Instance isUpFor_dec t m : Decision (isUpFor t m).
Proof. destruct m; simpl; apply _. Defined.

(** An interface metric: one of the six counter descriptors. *)
Definition interfaceDescs : list Desc :=
  [receiveBytesDesc; transmitBytesDesc; receiveDropsDesc; receiveErrorsDesc;
   transmitDropsDesc; transmitErrorsDesc].

Definition isInterfaceMetric (m : option Metric) : Prop :=
  match m with
  | Some m => desc m ∈ interfaceDescs
  | None => False
  end.

(** The two label tables and the six counter tables. *)
Definition labelOids : list string :=
  [".1.3.6.1.2.1.31.1.1.1.1"; ".1.3.6.1.2.1.31.1.1.1.18"].
Definition counterOids : list string :=
  [".1.3.6.1.2.1.2.2.1.10"; ".1.3.6.1.2.1.2.2.1.16"; ".1.3.6.1.2.1.2.2.1.13";
   ".1.3.6.1.2.1.2.2.1.14"; ".1.3.6.1.2.1.2.2.1.19"; ".1.3.6.1.2.1.2.2.1.20"].

Definition isBytes (v : PduValue) : Prop :=
  match v with VBytes _ => True | _ => False end.
Definition isUint (v : PduValue) : Prop :=
  match v with VUint _ => True | _ => False end.

Global Instance isBytes_dec v : Decision (isBytes v).
Proof. destruct v; simpl; apply _. Defined.
Global Instance isUint_dec v : Decision (isUint v).
Proof. destruct v; simpl; apply _. Defined.

(** A device whose rows carry the dynamic type the handlers assert: byte
    strings in the label tables, [uint] in the counter tables. *)
Definition wellTyped (d : Device) : Prop :=
  Forall (fun oid => Forall (fun p => isBytes (Value p)) (fst (tables d oid))) labelOids
  /\ Forall (fun oid => Forall (fun p => isUint (Value p)) (fst (tables d oid))) counterOids.

(** Every stored label slice is full: length and capacity are
    [numberOfInterfaceLabels], on an allocated array of that size. *)
Definition labelsFull (s : scope) : Prop :=
  forall id sl, interfaceLabels s !! id = Some sl ->
    len sl = numberOfInterfaceLabels /\ cap sl = numberOfInterfaceLabels
    /\ base sl < length (arrays s)
    /\ length (arrayAt (arrays s) (base sl)) = numberOfInterfaceLabels.

(** The label values of a row index, read through the table. *)
Definition labelsOf (s : scope) (id : string) : option (list string) :=
  elems (arrays s) <$> interfaceLabels s !! id.

(** The labels [handlePduAsMetric] hands to the registry for row index [id]:
    what the table holds for [id], nothing when [id] is absent, then the
    target. *)
Definition rowLabels (s : scope) (id : string) : list string :=
  default [] (labelsOf s id) ++ [Target (snmp s)].

(** [k] is the last dot-separated component of [oid]: it has no dot, and
    [oid] is [k] itself or ends with a dot followed by [k]. *)
Fixpoint hasDot (s : string) : bool :=
  match s with
  | EmptyString => false
  | String a rest => Ascii.eqb a dot || hasDot rest
  end.

Definition lastComponent (oid k : string) : Prop :=
  hasDot k = false
  /\ (oid = k \/ exists p, oid = p +:+ String dot k).

(** A property of scopes that the bookkeeping around the handlers keeps:
    recording a transport operation, setting the sticky error, opening or
    closing the connection. *)
Definition stable (I : scope -> Prop) : Prop :=
  forall s, I s ->
    (forall c, I (record c s)) /\ (forall e, I (set_err e s))
    /\ (forall b, I (set_snmp (set_Conn b (snmp s)) s)).

(** The history entries of the rows [ps] of table [oid]. *)
Definition rowCalls (oid : string) (ps : list SnmpPDU) : list call :=
  map (fun p => CallRow oid (Name p)) ps.

(** What one walk adds to the history, and what it does to the sticky error:
    an error already there stays, otherwise the walk's result is taken. *)
Definition walkStep (net : string -> Device) (oid : string) (s s' : scope) : Prop :=
  exists k r,
    calls s' = calls s ++ CallWalk oid
      :: rowCalls oid (take k (fst (tables (net (Target (snmp s))) oid)))
      ++ [CallReturn oid r]
    /\ err s' = match err s with Some e => Some e | None => r end
    /\ snmp s' = snmp s.

(** First error wins, on the whole history: the sticky error is the first
    error any transport operation answered, and is absent when none did. *)
Definition firstWins (s : scope) : Prop := err s = head (failures (calls s)).

(** An interface metric of target [t]: one of the six counter descriptors,
    with [t] as the last label value. *)
Definition interfaceMetricOf (t : string) (m : option Metric) : Prop :=
  exists m', m = Some m' /\ desc m' ∈ interfaceDescs
             /\ exists ls, labelValues m' = ls ++ [t].

(** What holds of the scope of target [t] all along [collectMetrics]. *)
Definition engineInv (t : string) (s : scope) : Prop :=
  labelsFull s /\ Target (snmp s) = t /\ Forall (interfaceMetricOf t) (ch s).

(** The reachability metric of target [t] with value [v]. *)
Definition upOf (t : string) (v : Z) : option Metric :=
  Some (ConstMetric upDesc GaugeValue v [t]).

(** 1 when no sticky error was recorded, 0 otherwise. *)
Definition upValue (s : scope) : Z :=
  match err s with Some _ => 0%Z | None => 1%Z end.

(** The value of a target's reachability metric when its goroutine ends. *)
Definition reachability (net : string -> Device) (c : JunosCollector) (t : string) : Z :=
  match collectForTarget net c t with
  | Ok s => upValue s
  | Panic _ => 0%Z
  end.

(** ** The bindings as the spec lists them

    The spec gives the walks as a table: each label table with its slot, each
    counter table with its descriptor and converter. *)
Definition specLabelBindings : list (string * nat) :=
  [(".1.3.6.1.2.1.31.1.1.1.1", 0); (".1.3.6.1.2.1.31.1.1.1.18", 1)].

Definition specCounterBindings : list (string * Desc * ValueConverter) :=
  [(".1.3.6.1.2.1.2.2.1.10", receiveBytesDesc, bitsToBytes);
   (".1.3.6.1.2.1.2.2.1.16", transmitBytesDesc, bitsToBytes);
   (".1.3.6.1.2.1.2.2.1.13", receiveDropsDesc, noConvert);
   (".1.3.6.1.2.1.2.2.1.14", receiveErrorsDesc, noConvert);
   (".1.3.6.1.2.1.2.2.1.19", transmitDropsDesc, noConvert);
   (".1.3.6.1.2.1.2.2.1.20", transmitErrorsDesc, noConvert)].

(** ** Devices used in the examples *)

Definition row (table index : string) (v : PduValue) : SnmpPDU :=
  {| Name := table +:+ "." +:+ index; Value := v |}.

Definition octets (s : string) : PduValue := VBytes (list_byte_of_string s).

(** One interface, row 9, named and described; 8000 in the receive-bytes
    table. *)
Definition uplinkDevice : Device := {|
  connectResult := None;
  tables := fun oid =>
    if decide (oid = ".1.3.6.1.2.1.31.1.1.1.1") then ([row oid "9" (octets "ge-0/0/0")], None)
    else if decide (oid = ".1.3.6.1.2.1.31.1.1.1.18") then ([row oid "9" (octets "uplink")], None)
    else if decide (oid = ".1.3.6.1.2.1.2.2.1.10") then ([row oid "9" (VUint 8000)], None)
    else ([], None)
|}.

(** Session setup times out. *)
Definition deadDevice : Device := {|
  connectResult := Some (TransportError 1);
  tables := fun _ => ([], None)
|}.

(** The name table answers with an Integer where an OctetString is due. *)
Definition mistypedDevice : Device := {|
  connectResult := None;
  tables := fun oid =>
    if decide (oid = ".1.3.6.1.2.1.31.1.1.1.1") then ([row oid "9" (VInt 3)], None)
    else ([], None)
|}.

(** Names for rows 9 and 12, a description for row 9 only.  The
    receive-bytes table has row 9, then row 7, which no label walk has seen,
    then row 12; the transmit-bytes walk fails after its first row. *)
Definition sparseDevice : Device := {|
  connectResult := None;
  tables := fun oid =>
    if decide (oid = ".1.3.6.1.2.1.31.1.1.1.1")
      then ([row oid "9" (octets "ge-0/0/0"); row oid "12" (octets "ge-0/0/3")], None)
    else if decide (oid = ".1.3.6.1.2.1.31.1.1.1.18") then ([row oid "9" (octets "uplink")], None)
    else if decide (oid = ".1.3.6.1.2.1.2.2.1.10")
      then ([row oid "9" (VUint 8000); row oid "7" (VUint 800); row oid "12" (VUint 80)],
            None)
    else if decide (oid = ".1.3.6.1.2.1.2.2.1.16")
      then ([row oid "9" (VUint 1600)], Some (TransportError 3))
    else ([], None)
|}.

Definition lab (target : string) : Device :=
  if decide (target = "10.0.0.1") then uplinkDevice
  else if decide (target = "10.0.0.3") then mistypedDevice
  else if decide (target = "10.0.0.4") then sparseDevice
  else deadDevice.

Definition labCollector : JunosCollector :=
  NewJunosCollector ["10.0.0.1"; "10.0.0.2"; "10.0.0.1"] "public".

Definition mistypedCollector : JunosCollector :=
  NewJunosCollector ["10.0.0.3"] "public".

(** From [s] to [s'] the label table is the same map and the store has only
    grown: no array that existed in [s] was written. *)
Definition tableKept (s s' : scope) : Prop :=
  interfaceLabels s' = interfaceLabels s
  /\ exists more, arrays s' = arrays s ++ more.

(** The scope after one name row, for row index 9, has been handled. *)
Definition labelledScope : scope :=
  match handlePduAsLabel labCollector 0
          (row ".1.3.6.1.2.1.31.1.1.1.1" "9" (octets "ge-0/0/0"))
          (newScope labCollector "10.0.0.1") with
  | Ok s => s
  | Panic _ => newScope labCollector "10.0.0.1"
  end.

(** The scope of a target once the session is set up and the two label
    tables are walked: where the counter walks start. *)
Definition afterLabels (net : string -> Device) (c : JunosCollector) (t : string)
  : outcome scope :=
  s ← fetchInterfaceLabelFromOid net c ".1.3.6.1.2.1.31.1.1.1.1" 0
        (snd (Connect net (newScope c t)));
  fetchInterfaceLabelFromOid net c ".1.3.6.1.2.1.31.1.1.1.18" 1 s.

Definition orElse {A} (m : outcome A) (a : A) : A :=
  match m with Ok x => x | Panic _ => a end.

(** The run of the goroutine of 10.0.0.4, and its scope after the label
    walks. *)
Definition sparseRun : scope :=
  orElse (collectForTarget lab labCollector "10.0.0.4") (newScope labCollector "10.0.0.4").
Definition sparseLabelled : scope :=
  orElse (afterLabels lab labCollector "10.0.0.4") (newScope labCollector "10.0.0.4").

(** The metric a counter row [q] gives on scope [s]. *)
Definition rowMetric (d : Desc) (conv : ValueConverter) (s : scope) (q : SnmpPDU)
  : option Metric :=
  match Value q with
  | VUint w => Some (ConstMetric d GaugeValue (conv w) (rowLabels s (getId (Name q))))
  | _ => None
  end.

(** A counter row the handler turns into a metric: a [uint] whose row index
    has a label entry. *)
Definition labelledRow (s : scope) (q : SnmpPDU) : Prop :=
  isUint (Value q) /\ is_Some (interfaceLabels s !! getId (Name q)).

(** ** The label table as a map from row index to label values *)

(** The table read through the store: each row index with the values of its
    slice. *)
Definition labelView (s : scope) : gmap string (list string) :=
  elems (arrays s) <$> interfaceLabels s.

(** The label values of an entry no walk has written yet. *)
Definition emptyLabels : list string := replicate numberOfInterfaceLabels EmptyString.

(** Writing value [v] in slot [i] of row index [id], the entry being created
    with empty slots when there is none. *)
Definition recordLabel (i : nat) (id v : string) (m : gmap string (list string))
  : gmap string (list string) :=
  <[id := <[i := v]> (default emptyLabels (m !! id))]> m.

(** The string a label row carries. *)
Definition labelValue (p : SnmpPDU) : string :=
  match Value p with
  | VBytes b => string_of_list_byte b
  | _ => EmptyString
  end.

(** No two row indices share a backing array. *)
Definition labelsSeparate (s : scope) : Prop :=
  forall id1 id2 sl1 sl2,
    interfaceLabels s !! id1 = Some sl1 -> interfaceLabels s !! id2 = Some sl2 ->
    base sl1 = base sl2 -> id1 = id2.

Definition tableInv (s : scope) : Prop := labelsFull s /\ labelsSeparate s.

(** The table after the rows [rows] of a label table have been written in
    slot [i], in order. *)
Definition labelWalkView (i : nat) (rows : list SnmpPDU) (m : gmap string (list string))
  : gmap string (list string) :=
  foldl (fun m p => recordLabel i (getId (Name p)) (labelValue p) m) m rows.

(** The callback [fetchInterfaceLabelFromOid] gives to the walk. *)
Definition labelCallback (c : JunosCollector) (i : nat)
  : SnmpPDU -> scope -> outcome (option error * scope) :=
  fun pdu s => s' ← handlePduAsLabel c i pdu s; Ok (None, s').

(** The scope of 10.0.0.1 after its label walks. *)
Definition uplinkLabelled : scope :=
  orElse (afterLabels lab labCollector "10.0.0.1") (newScope labCollector "10.0.0.1").

(** The run of the goroutine of 10.0.0.1. *)
Definition uplinkRun : scope :=
  orElse (collectForTarget lab labCollector "10.0.0.1") (newScope labCollector "10.0.0.1").

(** A metric a goroutine may put on the channel: non-nil, a gauge, with as
    many label values as its descriptor has label names. *)
Definition wellFormed (m : option Metric) : Prop :=
  exists m', m = Some m' /\ valueType m' = GaugeValue
             /\ length (labelValues m') = length (variableLabels (desc m')).

(** The operations on the session itself, walks left out. *)
Definition sessionCalls (cs : list call) : list call :=
  omap (fun c => match c with
                 | CallConnect _ | CallClose => Some c
                 | _ => None
                 end) cs.

(** A metric whose last label value is [t]: sent for target [t]. *)
Definition sentFor (t : string) (m : option Metric) : Prop :=
  match m with
  | Some m => last (labelValues m) = Some t
  | None => False
  end.

Global Instance sentFor_dec t m : Decision (sentFor t m).
Proof. destruct m; simpl; apply _. Defined.

(** Two distinct targets, and a sink in which the metric of the second
    target overtook those of the first. *)
Definition pairCollector : JunosCollector :=
  NewJunosCollector ["10.0.0.1"; "10.0.0.2"] "public".
Definition deadRun : scope :=
  orElse (collectForTarget lab pairCollector "10.0.0.2") (newScope pairCollector "10.0.0.2").
Definition pairSink : list (option Metric) := ch deadRun ++ ch uplinkRun.

(** [strings.Join(ts, sep)] for a one-byte separator: the inverse the
    identifiers are built with. *)
Fixpoint Join (ts : list string) (sep : ascii) : string :=
  match ts with
  | [] => EmptyString
  | t :: rest =>
      match rest with
      | [] => t
      | _ :: _ => t +:+ String sep (Join rest sep)
      end
  end.

(** What the walk of binding [b] sends when it hands [k] rows on: a metric
    for each of the first [k] rows of the binding's table, with the binding's
    descriptor and converter and the labels of scope [sL]. *)
Definition emittedBy (net : string -> Device) (t : string) (sL : scope)
    (b : string * Desc * ValueConverter) (k : nat) : list (option Metric) :=
  map (rowMetric (snd (fst b)) (snd b) sL)
      (take k (fst (tables (net t) (fst (fst b))))).

(** The walk of binding [b] turned its first [k] rows into metrics and
    stopped there: [k] is the whole table, or row [k] has no label entry. *)
Definition stoppedAt (net : string -> Device) (t : string) (sL : scope)
    (b : string * Desc * ValueConverter) (k : nat) : Prop :=
  Forall (labelledRow sL) (take k (fst (tables (net t) (fst (fst b)))))
  /\ (k = length (fst (tables (net t) (fst (fst b))))
      \/ exists p, fst (tables (net t) (fst (fst b))) !! k = Some p
                   /\ interfaceLabels sL !! getId (Name p) = None).

(** * Properties *)

(** ** Row-index extraction *)

Lemma Split_nonempty (s : string) (sep : ascii) : Split s sep <> [].
Proof.
  destruct s as [|a rest]; simpl; [discriminate|].
  destruct (Ascii.eqb a sep); [discriminate|].
  destruct (Split rest sep); discriminate.
Qed.

(** The index [len(t)-1] read by [getId] is in range. *)
Lemma Split_length_pos (s : string) (sep : ascii) :
  length (Split s sep) - 1 < length (Split s sep).
Proof.
  pose proof (Split_nonempty s sep) as H.
  destruct (Split s sep); [congruence | simpl; lia].
Qed.

Lemma Split_no_dot (s : string) : hasDot s = false -> Split s dot = [s].
Proof.
  induction s as [|a rest IH]; simpl; [reflexivity|].
  intros H. apply orb_false_iff in H as [Ha Hr].
  rewrite Ha, (IH Hr). reflexivity.
Qed.

Lemma Split_with_dot (s : string) :
  hasDot s = true -> exists t u us, Split s dot = t :: u :: us.
Proof.
  induction s as [|a rest IH]; simpl; [discriminate|].
  destruct (Ascii.eqb a dot) eqn:Ha; simpl.
  - intros _. pose proof (Split_nonempty rest dot) as Hne.
    destruct (Split rest dot) as [|u us]; [congruence|]. eauto.
  - intros H. destruct (IH H) as (t & u & us & ->). eauto.
Qed.

Lemma getId_last (oid : string) : getId oid = List.last (Split oid dot) EmptyString.
Proof.
  unfold getId. generalize (Split oid dot) as t.
  induction t as [|x [|y t] IH]; try reflexivity.
  change (nth (length (y :: t)) (x :: y :: t) EmptyString) with
         (nth (length (y :: t) - 0) (x :: y :: t) EmptyString).
  simpl in *. rewrite Nat.sub_0_r in IH. exact IH.
Qed.

Lemma getId_no_dot (s : string) : hasDot s = false -> getId s = s.
Proof. intros H. rewrite getId_last, (Split_no_dot _ H). reflexivity. Qed.

Lemma getId_cons (a : ascii) (rest : string) :
  getId (String a rest) =
  if Ascii.eqb a dot || hasDot rest then getId rest else String a rest.
Proof.
  rewrite !getId_last. simpl.
  destruct (Ascii.eqb a dot) eqn:Ha; simpl.
  - pose proof (Split_nonempty rest dot).
    destruct (Split rest dot); [congruence | reflexivity].
  - destruct (hasDot rest) eqn:Hr.
    + destruct (Split_with_dot _ Hr) as (t & u & us & ->). reflexivity.
    + rewrite (Split_no_dot _ Hr). reflexivity.
Qed.

Lemma hasDot_app (p k : string) : hasDot (p +:+ String dot k) = true.
Proof.
  induction p as [|a p IH].
  - reflexivity.
  - change (String a p +:+ String dot k) with (String a (p +:+ String dot k)).
    simpl. rewrite IH. apply orb_true_r.
Qed.

Lemma getId_after_dot (p k : string) :
  hasDot k = false -> getId (p +:+ String dot k) = k.
Proof.
  intros Hk. induction p as [|a p IH].
  - change (EmptyString +:+ String dot k) with (String dot k).
    rewrite getId_cons. change (Ascii.eqb dot dot) with true.
    apply getId_no_dot, Hk.
  - change (String a p +:+ String dot k) with (String a (p +:+ String dot k)).
    rewrite getId_cons, hasDot_app, orb_true_r. exact IH.
Qed.

Lemma getId_lastComponent (oid : string) : lastComponent oid (getId oid).
Proof.
  induction oid as [|a rest [Hk IH]].
  - split; [reflexivity | left; reflexivity].
  - rewrite getId_cons.
    destruct (Ascii.eqb a dot) eqn:Ha; simpl.
    + apply Ascii.eqb_eq in Ha as ->. split; [exact Hk|]. right.
      destruct IH as [Heq | [p Heq]].
      * exists EmptyString. change (String dot rest = String dot (getId rest)).
        f_equal. exact Heq.
      * exists (String dot p).
        change (String dot rest = String dot (p +:+ String dot (getId rest))).
        f_equal. exact Heq.
    + destruct (hasDot rest) eqn:Hr.
      * split; [exact Hk|]. right.
        destruct IH as [Heq | [p Heq]].
        -- rewrite <- Heq in Hk. congruence.
        -- exists (String a p).
           change (String a rest = String a (p +:+ String dot (getId rest))).
           f_equal. exact Heq.
      * split; [simpl; rewrite Ha, Hr; reflexivity | left; reflexivity].
Qed.

Lemma lastComponent_unique (oid k : string) : lastComponent oid k -> k = getId oid.
Proof.
  intros [Hk [-> | [p ->]]].
  - symmetry. apply getId_no_dot, Hk.
  - symmetry. apply getId_after_dot, Hk.
Qed.

(** ** Outcomes *)

Lemma bind_Ok {A B} (m : outcome A) (k : A -> outcome B) (b : B) :
  m ≫= k = Ok b -> exists a, m = Ok a /\ k a = Ok b.
Proof. destruct m as [a|w]; simpl; [eauto | discriminate]. Qed.

Lemma bind_Ok_l {A B} (a : A) (k : A -> outcome B) : Ok a ≫= k = k a.
Proof. reflexivity. Qed.

Ltac inv_bind H :=
  let a := fresh "a" in
  let Ha := fresh "Ha" in
  let H' := fresh "H" in
  apply bind_Ok in H as (a & Ha & H'); rename H' into H.

(** ** Slices *)

Lemma arrayAt_app_l (h more : store) (a : nat) :
  a < length h -> arrayAt (h ++ more) a = arrayAt h a.
Proof. intros Ha. unfold arrayAt. by rewrite lookup_app_l. Qed.

Lemma arrayAt_app_new (h : store) (x : list string) :
  arrayAt (h ++ [x]) (length h) = x.
Proof.
  unfold arrayAt. rewrite lookup_app_r by lia.
  by rewrite Nat.sub_diag.
Qed.

Lemma arrayAt_insert_eq (h : store) (a : nat) (x : list string) :
  a < length h -> arrayAt (<[a := x]> h) a = x.
Proof. intros Ha. unfold arrayAt. by rewrite list_lookup_insert_eq. Qed.

Lemma arrayAt_insert_ne (h : store) (a b : nat) (x : list string) :
  a <> b -> arrayAt (<[a := x]> h) b = arrayAt h b.
Proof. intros Hab. unfold arrayAt. by rewrite list_lookup_insert_ne. Qed.

Lemma elems_app_l (h more : store) (sl : slice) :
  base sl < length h -> elems (h ++ more) sl = elems h sl.
Proof. intros Hb. unfold elems. by rewrite arrayAt_app_l. Qed.

(** Appending to a full slice leaves the store it was given as a prefix of
    the new one: the argument's array is not written. *)
Lemma append_full (sl : slice) (x : string) (h : store) :
  len sl = cap sl ->
  length (arrayAt h (base sl)) = len sl \/ len sl = 0 ->
  exists arr, snd (append sl x h) = h ++ [arr]
              /\ elems (snd (append sl x h)) (fst (append sl x h)) = elems h sl ++ [x].
Proof.
  intros Hfull Hlen. unfold append.
  destruct (decide (len sl < cap sl)) as [Hlt|_]; [lia|]. simpl.
  eexists. split; [reflexivity|].
  unfold elems at 1. simpl. rewrite arrayAt_app_new.
  assert (length (elems h sl) = len sl) as Hl.
  { unfold elems. rewrite length_take. destruct Hlen as [->| ->]; lia. }
  rewrite take_app_length'; [reflexivity|].
  rewrite length_app, Hl. simpl. lia.
Qed.

(** ** The row handlers *)

Lemma handlePduAsLabel_frame c i p s s' :
  handlePduAsLabel c i p s = Ok s' ->
  isBytes (Value p) /\ snmp s' = snmp s /\ ch s' = ch s /\ err s' = err s
  /\ calls s' = calls s.
Proof.
  unfold handlePduAsLabel. intros H.
  destruct (Value p); try discriminate.
  inv_bind H. injection H as <-.
  destruct (interfaceLabels s !! getId (Name p)); simpl; auto.
Qed.

Lemma handlePduAsLabel_dom c i p s s' :
  handlePduAsLabel c i p s = Ok s' ->
  dom (interfaceLabels s') = {[getId (Name p)]} ∪ dom (interfaceLabels s).
Proof.
  unfold handlePduAsLabel. intros H.
  destruct (Value p); try discriminate.
  inv_bind H. injection H as <-.
  destruct (interfaceLabels s !! getId (Name p)) as [sl|] eqn:Hl; simpl.
  - apply (elem_of_dom_2 (D := gset string)) in Hl.
    symmetry. apply subseteq_union_1_L. by apply singleton_subseteq_l.
  - apply dom_insert_L.
Qed.

Lemma handlePduAsLabel_full c i p s :
  labelsFull s -> i < numberOfInterfaceLabels -> isBytes (Value p) ->
  exists s', handlePduAsLabel c i p s = Ok s' /\ labelsFull s'.
Proof.
  intros Hfull Hi Hb. unfold handlePduAsLabel.
  generalize (getId (Name p)) as k. intros k.
  destruct (Value p) as [| |b| | |]; try contradiction.
  destruct (interfaceLabels s !! k) as [sl|] eqn:Hl; simpl.
  - destruct (Hfull _ _ Hl) as (Hlen & Hcap & Hbase & Harr).
    unfold setIndex. rewrite decide_True by lia. simpl.
    eexists. split; [reflexivity|].
    intros id sl' Hl'. simpl in *.
    destruct (Hfull _ _ Hl') as (Hlen' & Hcap' & Hbase' & Harr').
    rewrite length_insert. repeat split; try assumption.
    destruct (decide (base sl = base sl')) as [Heq|Hne].
    + rewrite <- Heq, arrayAt_insert_eq by assumption.
      by rewrite length_insert.
    + by rewrite arrayAt_insert_ne.
  - unfold setIndex. simpl. rewrite decide_True by exact Hi. simpl.
    eexists. split; [reflexivity|].
    intros id sl' Hl'. simpl in *.
    rewrite length_insert, length_app. simpl.
    destruct (decide (k = id)) as [->|Hne].
    + rewrite lookup_insert_eq in Hl'. injection Hl' as <-. simpl.
      repeat split; try reflexivity; try lia.
      rewrite arrayAt_insert_eq by (rewrite length_app; simpl; lia).
      rewrite length_insert, arrayAt_app_new. reflexivity.
    + rewrite lookup_insert_ne in Hl' by assumption.
      destruct (Hfull _ _ Hl') as (Hlen' & Hcap' & Hbase' & Harr').
      repeat split; try assumption; try lia.
      rewrite arrayAt_insert_ne by lia.
      by rewrite arrayAt_app_l.
Qed.

(** On a table of full slices the metric handler is a function of the labels
    read through the table; it allocates one array and writes no other. *)
Lemma handlePduAsMetric_spec c d p conv s v :
  labelsFull s -> Value p = VUint v ->
  exists arr,
    handlePduAsMetric c d p conv s =
    Ok (match NewConstMetric d GaugeValue (conv v) (rowLabels s (getId (Name p))) with
        | inr e => (Some e, set_arrays (arrays s ++ [arr]) s)
        | inl m => (None, send (Some m) (set_arrays (arrays s ++ [arr]) s))
        end).
Proof.
  intros Hfull Hv. unfold handlePduAsMetric. rewrite Hv.
  unfold rowLabels, labelsOf.
  generalize (getId (Name p)) as k. intros k.
  assert (exists arr,
    snd (append (default nilSlice (interfaceLabels s !! k)) (Target (snmp s)) (arrays s))
      = arrays s ++ [arr]
    /\ elems (snd (append (default nilSlice (interfaceLabels s !! k))
                          (Target (snmp s)) (arrays s)))
             (fst (append (default nilSlice (interfaceLabels s !! k))
                          (Target (snmp s)) (arrays s)))
      = default [] (elems (arrays s) <$> interfaceLabels s !! k) ++ [Target (snmp s)])
    as (arr & Hs & He).
  { destruct (interfaceLabels s !! k) as [sl|] eqn:Hl.
    - destruct (Hfull _ _ Hl) as (Hlen & Hcap & Hbase & Harr).
      apply (append_full sl); [congruence | left; congruence].
    - apply (append_full nilSlice); [reflexivity | right; reflexivity]. }
  exists arr. cbn [arrays set_arrays]. rewrite He, Hs.
  destruct (NewConstMetric _ _ _ _); reflexivity.
Qed.

Lemma labelsFull_grow s arr :
  labelsFull s -> labelsFull (set_arrays (arrays s ++ [arr]) s).
Proof.
  intros Hfull id sl Hl. simpl in *.
  destruct (Hfull _ _ Hl) as (Hlen & Hcap & Hbase & Harr).
  rewrite length_app, arrayAt_app_l by assumption.
  repeat split; try assumption. lia.
Qed.

Lemma handlePduAsMetric_frame c d p conv s r :
  handlePduAsMetric c d p conv s = Ok r ->
  isUint (Value p) /\ interfaceLabels (snd r) = interfaceLabels s
  /\ snmp (snd r) = snmp s /\ err (snd r) = err s /\ calls (snd r) = calls s
  /\ (ch (snd r) = ch s
      \/ exists m, desc m = d /\ ch (snd r) = ch s ++ [Some m] /\ fst r = None).
Proof.
  unfold handlePduAsMetric. intros H.
  destruct (Value p); try discriminate.
  match type of H with context [NewConstMetric ?a ?b ?c ?e] =>
    destruct (NewConstMetric a b c e) as [m|e'] eqn:Hm end;
    injection H as <-; simpl; repeat split; auto.
  right. exists m. repeat split; auto.
  unfold NewConstMetric in Hm. case_decide; [|discriminate].
  injection Hm as <-. reflexivity.
Qed.

(** ** Walks *)

Lemma stable_record I s c : stable I -> I s -> I (record c s).
Proof. intros H Hs. apply H, Hs. Qed.

Lemma stable_err I s e : stable I -> I s -> I (set_err e s).
Proof. intros H Hs. apply H, Hs. Qed.

Lemma stable_Conn I s b : stable I -> I s -> I (set_snmp (set_Conn b (snmp s)) s).
Proof. intros H Hs. apply H, Hs. Qed.

Section Walks.

Variable net : string -> Device.

Lemma walkRows_inv (I : scope -> Prop) oid rows final f s r :
  (forall n s, I s -> I (record (CallRow oid n) s)) ->
  (forall p s r, p ∈ rows -> I s -> f p s = Ok r -> I (snd r)) ->
  I s -> walkRows oid rows final f s = Ok r -> I (snd r).
Proof.
  intros Hrec Hf. revert s.
  induction rows as [|p rest IH]; intros s Hs H; simpl in H.
  - injection H as <-. exact Hs.
  - inv_bind H.
    assert (I (snd a)) as Ha'.
    { eapply Hf; [| |exact Ha]; [left|apply Hrec, Hs]. }
    destruct (fst a).
    + injection H as <-. exact Ha'.
    + apply (IH (fun q s r Hq => Hf q s r (list_elem_of_further _ _ _ Hq)) _ Ha' H).
Qed.

Lemma walkRows_completes (I : scope -> Prop) oid rows final f s :
  (forall n s, I s -> I (record (CallRow oid n) s)) ->
  (forall p s, p ∈ rows -> I s -> exists r, f p s = Ok r /\ I (snd r)) ->
  I s -> exists r, walkRows oid rows final f s = Ok r /\ I (snd r).
Proof.
  intros Hrec Hf. revert s.
  induction rows as [|p rest IH]; intros s Hs; simpl.
  - eexists. split; [reflexivity | exact Hs].
  - destruct (Hf p (record (CallRow oid (Name p)) s)) as (r & Hr & Hr');
      [left | apply Hrec, Hs |].
    rewrite Hr. simpl. destruct (fst r).
    + eexists. split; [reflexivity | exact Hr'].
    + apply IH; [|exact Hr'].
      intros q s' Hq. apply Hf. by right.
Qed.

(** A walk splits at any row: the rows before it, then, unless the callback
    stopped the walk, the rest. *)
Lemma walkRows_app oid pre rest final f s :
  walkRows oid (pre ++ rest) final f s =
  r ← walkRows oid pre None f s;
  match fst r with
  | Some e => Ok (Some e, snd r)
  | None => walkRows oid rest final f (snd r)
  end.
Proof.
  revert s. induction pre as [|p pre IH]; intros s; simpl.
  - reflexivity.
  - destruct (f p (record (CallRow oid (Name p)) s)) as [r|w]; simpl; [|reflexivity].
    destruct (fst r); [reflexivity | apply IH].
Qed.

(** What a walk leaves in the history when the callback itself records
    nothing: the rows handed over are a prefix of the table. *)
Lemma walkRows_trace oid rows final f s r :
  (forall p s r, f p s = Ok r -> calls (snd r) = calls s) ->
  walkRows oid rows final f s = Ok r ->
  exists k, calls (snd r) = calls s ++ rowCalls oid (take k rows).
Proof.
  intros Hf. revert s.
  induction rows as [|p rest IH]; intros s H; simpl in H.
  - injection H as <-. exists 0. simpl. by rewrite app_nil_r.
  - inv_bind H. apply Hf in Ha. simpl in Ha.
    destruct (fst a).
    + injection H as <-. exists 1. simpl. rewrite Ha.
      destruct rest; reflexivity.
    + destruct (IH _ H) as (k & Hk). exists (S k).
      rewrite Hk, Ha. simpl. by rewrite <- app_assoc.
Qed.

Lemma Walk_inv (I : scope -> Prop) oid f s r :
  (forall c s, I s -> I (record c s)) ->
  (forall p s r, I s -> f p s = Ok r -> I (snd r)) ->
  I s -> Walk net oid f s = Ok r -> I (snd r).
Proof.
  intros Hrec Hf Hs H. unfold Walk in H. inv_bind H. injection H as <-. simpl.
  apply Hrec.
  eapply (walkRows_inv I); [| |apply (Hrec (CallWalk oid) _ Hs)|exact Ha].
  - intros n s' Hs'. by apply Hrec.
  - intros p s' r' _. apply Hf.
Qed.

Lemma Walk_completes (I : scope -> Prop) oid f s :
  (forall c s, I s -> I (record c s)) ->
  (forall p s', p ∈ fst (tables (net (Target (snmp s))) oid) -> I s' ->
                exists r, f p s' = Ok r /\ I (snd r)) ->
  I s -> exists r, Walk net oid f s = Ok r /\ I (snd r).
Proof.
  intros Hrec Hf Hs. unfold Walk.
  destruct (walkRows_completes I oid (fst (tables (net (Target (snmp s))) oid))
              (snd (tables (net (Target (snmp s))) oid)) f
              (record (CallWalk oid) s)) as (r & Hr & Hr').
  - intros n s' Hs'. by apply Hrec.
  - exact Hf.
  - by apply Hrec.
  - rewrite Hr. simpl. eexists. split; [reflexivity|]. simpl.
    by apply Hrec.
Qed.

(** The history of one walk when the callback records nothing. *)
Lemma Walk_trace oid f s r :
  (forall p s r, f p s = Ok r -> calls (snd r) = calls s) ->
  Walk net oid f s = Ok r ->
  exists k,
    calls (snd r) =
    calls s ++ CallWalk oid
      :: rowCalls oid (take k (fst (tables (net (Target (snmp s))) oid)))
      ++ [CallReturn oid (fst r)].
Proof.
  intros Hf H. unfold Walk in H. inv_bind H. injection H as <-. simpl.
  destruct (walkRows_trace _ _ _ _ _ _ Hf Ha) as (k & Hk).
  exists k. rewrite Hk. simpl. rewrite <- !app_assoc. reflexivity.
Qed.

(** *** The two kinds of walk *)

Variable c : JunosCollector.

Lemma keepFirst_err e s :
  err (keepFirst e s) = match err s with Some x => Some x | None => e end.
Proof.
  unfold keepFirst. destruct e; destruct (err s) eqn:E; simpl; congruence.
Qed.

Lemma keepFirst_fields e s :
  interfaceLabels (keepFirst e s) = interfaceLabels s
  /\ snmp (keepFirst e s) = snmp s /\ ch (keepFirst e s) = ch s
  /\ arrays (keepFirst e s) = arrays s /\ calls (keepFirst e s) = calls s.
Proof. unfold keepFirst. destruct e, (err s); simpl; auto. Qed.

Lemma keepFirst_stable I e s : stable I -> I s -> I (keepFirst e s).
Proof.
  intros Hst Hs. unfold keepFirst.
  destruct e, (err s); try exact Hs. by apply stable_err.
Qed.

Lemma fetchInterfaceLabelFromOid_inv (I : scope -> Prop) oid i s s' :
  stable I ->
  (forall p s s', I s -> handlePduAsLabel c i p s = Ok s' -> I s') ->
  I s -> fetchInterfaceLabelFromOid net c oid i s = Ok s' -> I s'.
Proof.
  intros Hst Hf Hs H. unfold fetchInterfaceLabelFromOid in H.
  inv_bind H. injection H as <-. apply keepFirst_stable; [exact Hst|].
  eapply (Walk_inv I); [| |exact Hs|exact Ha].
  - intros c0 s0 Hs0. by apply stable_record.
  - intros p s0 r Hs0 Hr. inv_bind Hr. injection Hr as <-. simpl. eauto.
Qed.

Lemma fetchInterfaceMetricFromOid_inv (I : scope -> Prop) oid d conv s s' :
  stable I ->
  (forall p s r, I s -> handlePduAsMetric c d p conv s = Ok r -> I (snd r)) ->
  I s -> fetchInterfaceMetricFromOid net c oid d conv s = Ok s' -> I s'.
Proof.
  intros Hst Hf Hs H. unfold fetchInterfaceMetricFromOid in H.
  inv_bind H. injection H as <-. apply keepFirst_stable; [exact Hst|].
  eapply (Walk_inv I); [| |exact Hs|exact Ha].
  - intros c0 s0 Hs0. by apply stable_record.
  - exact Hf.
Qed.

Lemma fetchInterfaceLabelFromOid_completes (I : scope -> Prop) oid i s :
  stable I ->
  (forall p s', p ∈ fst (tables (net (Target (snmp s))) oid) -> I s' ->
                exists s'', handlePduAsLabel c i p s' = Ok s'' /\ I s'') ->
  I s -> exists s', fetchInterfaceLabelFromOid net c oid i s = Ok s' /\ I s'.
Proof.
  intros Hst Hf Hs. unfold fetchInterfaceLabelFromOid.
  edestruct (Walk_completes I oid
               (fun pdu s => s' ← handlePduAsLabel c i pdu s; Ok (None, s')))
    as (r & Hr & Hr'); [| |exact Hs|].
  - intros c0 s0 Hs0. by apply stable_record.
  - intros p s0 Hp Hs0. destruct (Hf p s0 Hp Hs0) as (s1 & H1 & H1').
    cbv beta. rewrite H1. simpl. eexists. split; [reflexivity | exact H1'].
  - rewrite Hr. simpl. eexists. split; [reflexivity|].
    by apply keepFirst_stable.
Qed.

Lemma fetchInterfaceMetricFromOid_completes (I : scope -> Prop) oid d conv s :
  stable I ->
  (forall p s', p ∈ fst (tables (net (Target (snmp s))) oid) -> I s' ->
                exists r, handlePduAsMetric c d p conv s' = Ok r /\ I (snd r)) ->
  I s -> exists s', fetchInterfaceMetricFromOid net c oid d conv s = Ok s' /\ I s'.
Proof.
  intros Hst Hf Hs. unfold fetchInterfaceMetricFromOid.
  edestruct (Walk_completes I oid) as (r & Hr & Hr'); [| |exact Hs|].
  - intros c0 s0 Hs0. by apply stable_record.
  - exact Hf.
  - rewrite Hr. simpl. eexists. split; [reflexivity|].
    by apply keepFirst_stable.
Qed.

Lemma fetchInterfaceLabelFromOid_step oid i s s' :
  fetchInterfaceLabelFromOid net c oid i s = Ok s' -> walkStep net oid s s'.
Proof.
  intros H. unfold fetchInterfaceLabelFromOid in H.
  inv_bind H. injection H as <-.
  assert (forall p s r,
            (s' ← handlePduAsLabel c i p s; Ok (@None error, s')) = Ok r ->
            calls (snd r) = calls s /\ err (snd r) = err s /\ snmp (snd r) = snmp s)
    as Hf.
  { intros p s0 r Hr. inv_bind Hr. injection Hr as <-. simpl.
    apply handlePduAsLabel_frame in Ha0. intuition. }
  destruct (Walk_trace oid _ s a (fun p s r H => proj1 (Hf p s r H)) Ha)
    as (k & Hk).
  assert (err (snd a) = err s /\ snmp (snd a) = snmp s) as [He Hs].
{ eapply (Walk_inv (fun s' => err s' = err s /\ snmp s' = snmp s));
    [| | |exact Ha]; [auto| |auto].
  intros p s0 r [? ?] Hr. destruct (Hf _ _ _ Hr) as (_ & -> & ->). auto. }
  destruct (keepFirst_fields (fst a) (snd a)) as (_ & Hsn & _ & _ & Hc).
  exists k, (fst a). rewrite Hc, Hsn, keepFirst_err, He. auto.
Qed.

Lemma fetchInterfaceMetricFromOid_step oid d conv s s' :
  fetchInterfaceMetricFromOid net c oid d conv s = Ok s' -> walkStep net oid s s'.
Proof.
  intros H. unfold fetchInterfaceMetricFromOid in H.
  inv_bind H. injection H as <-.
  assert (forall p s r,
            handlePduAsMetric c d p conv s = Ok r ->
            calls (snd r) = calls s /\ err (snd r) = err s /\ snmp (snd r) = snmp s)
    as Hf.
  { intros p s0 r Hr. apply handlePduAsMetric_frame in Hr. intuition. }
  destruct (Walk_trace oid _ s a (fun p s r H => proj1 (Hf p s r H)) Ha)
    as (k & Hk).
  assert (err (snd a) = err s /\ snmp (snd a) = snmp s) as [He Hs].
{ eapply (Walk_inv (fun s' => err s' = err s /\ snmp s' = snmp s));
    [| | |exact Ha]; [auto| |auto].
  intros p s0 r [? ?] Hr. destruct (Hf _ _ _ Hr) as (_ & -> & ->). auto. }
  destruct (keepFirst_fields (fst a) (snd a)) as (_ & Hsn & _ & _ & Hc).
  exists k, (fst a). rewrite Hc, Hsn, keepFirst_err, He. auto.
Qed.

End Walks.

(** ** Histories *)

Lemma walked_app cs cs' : walked (cs ++ cs') = walked cs ++ walked cs'.
Proof. apply omap_app. Qed.

Lemma failures_app cs cs' : failures (cs ++ cs') = failures cs ++ failures cs'.
Proof. apply omap_app. Qed.

Lemma delivered_app oid cs cs' :
  delivered oid (cs ++ cs') = delivered oid cs ++ delivered oid cs'.
Proof. apply omap_app. Qed.

Lemma walked_rowCalls oid ps : walked (rowCalls oid ps) = [].
Proof. induction ps; [reflexivity | exact IHps]. Qed.

Lemma failures_rowCalls oid ps : failures (rowCalls oid ps) = [].
Proof. induction ps; [reflexivity | exact IHps]. Qed.

Lemma delivered_rowCalls oid ps : delivered oid (rowCalls oid ps) = map Name ps.
Proof.
  induction ps as [|p ps IH]; [reflexivity|].
  simpl. rewrite decide_True by reflexivity. simpl. f_equal. exact IH.
Qed.

Lemma walkStep_walked net oid s s' :
  walkStep net oid s s' -> walked (calls s') = walked (calls s) ++ [oid].
Proof.
  intros (k & r & -> & _ & _).
  rewrite walked_app. f_equal. simpl. rewrite walked_app, walked_rowCalls.
  reflexivity.
Qed.

Lemma walkStep_failures net oid s s' :
  walkStep net oid s s' ->
  exists r, failures (calls s') = failures (calls s) ++ option_list r
            /\ err s' = match err s with Some e => Some e | None => r end.
Proof.
  intros (k & r & -> & He & _). exists r. split; [|exact He].
  rewrite failures_app. f_equal. simpl.
  rewrite failures_app, failures_rowCalls. destruct r; reflexivity.
Qed.

Lemma walkStep_firstWins net oid s s' :
  walkStep net oid s s' -> firstWins s -> firstWins s'.
Proof.
  intros H Hs. apply walkStep_failures in H as (r & Hf & He).
  unfold firstWins in *. rewrite Hf, He, Hs.
  destruct (failures (calls s)); [|reflexivity].
  destruct r; reflexivity.
Qed.

Lemma walkStep_Target net oid s s' :
  walkStep net oid s s' -> Target (snmp s') = Target (snmp s).
Proof. intros (k & r & _ & _ & ->). reflexivity. Qed.

(** ** One target *)

Section Engine.

Variable net : string -> Device.
Variable c : JunosCollector.

(** The shape of a run of [collectMetrics] that returns: it stopped at a
    failed session setup, or went through the eight walks and closed. *)
Lemma collectMetrics_Ok s s' :
  collectMetrics net c s = Ok s' ->
  (exists e, connectResult (net (Target (snmp s))) = Some e /\ err s = None
             /\ s' = set_err (Some e) (snd (Connect net s)))
  \/ (connectResult (net (Target (snmp s))) = None /\
      exists s1 s2 s3 s4 s5 s6 s7 s8,
        fetchInterfaceLabelFromOid net c ".1.3.6.1.2.1.31.1.1.1.1" 0
          (snd (Connect net s)) = Ok s1
        /\ fetchInterfaceLabelFromOid net c ".1.3.6.1.2.1.31.1.1.1.18" 1 s1 = Ok s2
        /\ fetchInterfaceMetricFromOid net c ".1.3.6.1.2.1.2.2.1.10"
             receiveBytesDesc bitsToBytes s2 = Ok s3
        /\ fetchInterfaceMetricFromOid net c ".1.3.6.1.2.1.2.2.1.16"
             transmitBytesDesc bitsToBytes s3 = Ok s4
        /\ fetchInterfaceMetricFromOid net c ".1.3.6.1.2.1.2.2.1.13"
             receiveDropsDesc noConvert s4 = Ok s5
        /\ fetchInterfaceMetricFromOid net c ".1.3.6.1.2.1.2.2.1.14"
             receiveErrorsDesc noConvert s5 = Ok s6
        /\ fetchInterfaceMetricFromOid net c ".1.3.6.1.2.1.2.2.1.19"
             transmitDropsDesc noConvert s6 = Ok s7
        /\ fetchInterfaceMetricFromOid net c ".1.3.6.1.2.1.2.2.1.20"
             transmitErrorsDesc noConvert s7 = Ok s8
        /\ s' = Close s8).
Proof.
  unfold collectMetrics. intros H.
  change (fst (Connect net s)) with (connectResult (net (Target (snmp s)))) in H.
  change (err (snd (Connect net s))) with (err s) in H.
  change (Conn (snmp (snd (Connect net s))))
    with (bool_decide (connectResult (net (Target (snmp s))) = None)) in H.
  destruct (connectResult (net (Target (snmp s)))) as [e|] eqn:Hc.
  - destruct (err s) eqn:He.
    + rewrite bool_decide_false in H by discriminate. discriminate.
    + left. injection H as <-. eauto.
  - right. split; [reflexivity|].
    rewrite bool_decide_true in H by reflexivity.
    do 8 inv_bind H. injection H as <-.
    eauto 20.
Qed.

Lemma engineInv_stable t : stable (engineInv t).
Proof.
  intros s (Hf & Ht & Hc).
  split; [|split]; intros; (split; [exact Hf | split; [exact Ht | exact Hc]]).
Qed.

Lemma engineInv_newScope t : engineInv t (newScope c t).
Proof.
  split; [|split; [reflexivity|constructor]].
  intros id sl Hl. simpl in Hl. by rewrite lookup_empty in Hl.
Qed.

Lemma engineInv_label t i p s s' :
  i < numberOfInterfaceLabels ->
  engineInv t s -> handlePduAsLabel c i p s = Ok s' -> engineInv t s'.
Proof.
  intros Hi (Hf & Ht & Hc) H.
  destruct (handlePduAsLabel_frame _ _ _ _ _ H) as (Hb & Hsn & Hch & _).
  destruct (handlePduAsLabel_full c i p s Hf Hi Hb) as (s'' & H'' & Hf'').
  assert (s'' = s') as -> by congruence.
  split; [exact Hf''|split; [congruence|by rewrite Hch]].
Qed.

Lemma engineInv_metric t d p conv s r :
  d ∈ interfaceDescs ->
  engineInv t s -> handlePduAsMetric c d p conv s = Ok r -> engineInv t (snd r).
Proof.
  intros Hd (Hf & Ht & Hc) H.
  destruct (handlePduAsMetric_frame _ _ _ _ _ _ H) as (Hu & _).
  destruct (Value p) as [| | |v| |] eqn:Hv; try contradiction.
  destruct (handlePduAsMetric_spec c d p conv s v Hf Hv) as (arr & Hspec).
  rewrite Hspec in H. injection H as <-.
  pose proof (labelsFull_grow s arr Hf) as Hg.
  unfold NewConstMetric. case_decide; simpl.
  - split; [exact Hg|split; [exact Ht|]].
    apply Forall_app. split; [exact Hc|]. constructor; [|constructor].
    eexists. split; [reflexivity|]. split; [exact Hd|].
    simpl. unfold rowLabels. rewrite Ht. eauto.
  - split; [exact Hg|split; [exact Ht|exact Hc]].
Qed.

Lemma handlePduAsMetric_completes t d p conv s :
  d ∈ interfaceDescs -> isUint (Value p) -> engineInv t s ->
  exists r, handlePduAsMetric c d p conv s = Ok r /\ engineInv t (snd r).
Proof.
  intros Hd Hu Hs.
  destruct (Value p) as [| | |v| |] eqn:Hv; try contradiction.
  destruct (handlePduAsMetric_spec c d p conv s v (proj1 Hs) Hv) as (arr & Hspec).
  eexists. split; [exact Hspec|].
  eapply engineInv_metric; [exact Hd|exact Hs|exact Hspec].
Qed.

Lemma handlePduAsLabel_completes t i p s :
  i < numberOfInterfaceLabels -> isBytes (Value p) -> engineInv t s ->
  exists s', handlePduAsLabel c i p s = Ok s' /\ engineInv t s'.
Proof.
  intros Hi Hb Hs.
  destruct (handlePduAsLabel_full c i p s (proj1 Hs) Hi Hb) as (s' & H & _).
  exists s'. split; [exact H|]. eapply engineInv_label; eassumption.
Qed.

Lemma Connect_engineInv t s : engineInv t s -> engineInv t (snd (Connect net s)).
Proof.
  intros Hs. unfold Connect. simpl.
  apply stable_record; [apply engineInv_stable|].
  apply stable_Conn; [apply engineInv_stable|exact Hs].
Qed.

Lemma collectMetrics_engineInv t s s' :
  engineInv t s -> collectMetrics net c s = Ok s' -> engineInv t s'.
Proof.
  intros Hs H. pose proof (Connect_engineInv t s Hs) as H0.
  pose proof (engineInv_stable t) as Hst.
  assert (forall oid i a b, i < numberOfInterfaceLabels -> engineInv t a ->
            fetchInterfaceLabelFromOid net c oid i a = Ok b -> engineInv t b) as HL.
  { intros oid i a b Hi Ha Hab.
    eapply (fetchInterfaceLabelFromOid_inv net c (engineInv t)); [exact Hst| |exact Ha|exact Hab].
    intros p x y Hx Hxy. eapply engineInv_label; eassumption. }
  assert (forall oid d conv a b, d ∈ interfaceDescs -> engineInv t a ->
            fetchInterfaceMetricFromOid net c oid d conv a = Ok b -> engineInv t b) as HM.
  { intros oid d conv a b Hd Ha Hab.
    eapply (fetchInterfaceMetricFromOid_inv net c (engineInv t)); [exact Hst| |exact Ha|exact Hab].
    intros p x y Hx Hxy. eapply engineInv_metric; eassumption. }
  apply collectMetrics_Ok in H as [(e & _ & _ & ->) | (_ & s1 & s2 & s3 & s4 & s5 & s6 & s7 & s8
      & H1 & H2 & H3 & H4 & H5 & H6 & H7 & H8 & ->)].
  - by apply stable_err.
  - unfold Close. apply stable_record; [exact Hst|]. apply stable_Conn; [exact Hst|].
    unfold numberOfInterfaceLabels in HL.
    apply HL in H1; [|lia|exact H0]. apply HL in H2; [|lia|exact H1].
    apply HM in H3; [|set_solver|exact H2]. apply HM in H4; [|set_solver|exact H3].
    apply HM in H5; [|set_solver|exact H4]. apply HM in H6; [|set_solver|exact H5].
    apply HM in H7; [|set_solver|exact H6]. apply HM in H8; [|set_solver|exact H7].
    exact H8.
Qed.

Lemma fetchInterfaceLabelFromOid_total t oid i s :
  wellTyped (net t) -> oid ∈ labelOids -> i < numberOfInterfaceLabels ->
  engineInv t s ->
  exists s', fetchInterfaceLabelFromOid net c oid i s = Ok s' /\ engineInv t s'.
Proof.
  intros [Hw _] Ho Hi Hs.
  apply (fetchInterfaceLabelFromOid_completes net c (engineInv t));
    [apply engineInv_stable| |exact Hs].
  intros p s0 Hp Hs0. apply handlePduAsLabel_completes; [exact Hi| |exact Hs0].
  destruct Hs as (_ & Ht & _). rewrite Ht in Hp.
  rewrite Forall_forall in Hw. specialize (Hw oid Ho).
  rewrite Forall_forall in Hw. by apply Hw.
Qed.

Lemma fetchInterfaceMetricFromOid_total t oid d conv s :
  wellTyped (net t) -> oid ∈ counterOids -> d ∈ interfaceDescs ->
  engineInv t s ->
  exists s', fetchInterfaceMetricFromOid net c oid d conv s = Ok s' /\ engineInv t s'.
Proof.
  intros [_ Hw] Ho Hd Hs.
  apply (fetchInterfaceMetricFromOid_completes net c (engineInv t));
    [apply engineInv_stable| |exact Hs].
  intros p s0 Hp Hs0. apply handlePduAsMetric_completes; [exact Hd| |exact Hs0].
  destruct Hs as (_ & Ht & _). rewrite Ht in Hp.
  rewrite Forall_forall in Hw. specialize (Hw oid Ho).
  rewrite Forall_forall in Hw. by apply Hw.
Qed.

(** On a well-typed device no handler panics: [collectMetrics] returns. *)
Lemma collectMetrics_total t s :
  wellTyped (net t) -> engineInv t s -> err s = None ->
  exists s', collectMetrics net c s = Ok s' /\ engineInv t s'.
Proof.
  intros Hw Hs He. pose proof (Connect_engineInv t s Hs) as H0.
  unfold collectMetrics.
  change (fst (Connect net s)) with (connectResult (net (Target (snmp s)))).
  change (err (snd (Connect net s))) with (err s).
  change (Conn (snmp (snd (Connect net s))))
    with (bool_decide (connectResult (net (Target (snmp s))) = None)).
  rewrite He.
  destruct (connectResult (net (Target (snmp s)))) as [e|].
  { eexists. split; [reflexivity|].
    apply stable_err; [apply engineInv_stable|exact H0]. }
  rewrite bool_decide_true by reflexivity.
  unfold numberOfInterfaceLabels in *.
  destruct (fetchInterfaceLabelFromOid_total t ".1.3.6.1.2.1.31.1.1.1.1" 0 (snd (Connect net s)) Hw)
    as (s1 & -> & H1); [set_solver|unfold numberOfInterfaceLabels; lia|exact H0|].
  rewrite bind_Ok_l.
  destruct (fetchInterfaceLabelFromOid_total t ".1.3.6.1.2.1.31.1.1.1.18" 1 s1 Hw)
    as (s2 & -> & H2); [set_solver|unfold numberOfInterfaceLabels; lia|exact H1|].
  rewrite bind_Ok_l.
  destruct (fetchInterfaceMetricFromOid_total t ".1.3.6.1.2.1.2.2.1.10"
              receiveBytesDesc bitsToBytes s2 Hw)
    as (s3 & -> & H3); [set_solver|set_solver|exact H2|].
  rewrite bind_Ok_l.
  destruct (fetchInterfaceMetricFromOid_total t ".1.3.6.1.2.1.2.2.1.16"
              transmitBytesDesc bitsToBytes s3 Hw)
    as (s4 & -> & H4); [set_solver|set_solver|exact H3|].
  rewrite bind_Ok_l.
  destruct (fetchInterfaceMetricFromOid_total t ".1.3.6.1.2.1.2.2.1.13"
              receiveDropsDesc noConvert s4 Hw)
    as (s5 & -> & H5); [set_solver|set_solver|exact H4|].
  rewrite bind_Ok_l.
  destruct (fetchInterfaceMetricFromOid_total t ".1.3.6.1.2.1.2.2.1.14"
              receiveErrorsDesc noConvert s5 Hw)
    as (s6 & -> & H6); [set_solver|set_solver|exact H5|].
  rewrite bind_Ok_l.
  destruct (fetchInterfaceMetricFromOid_total t ".1.3.6.1.2.1.2.2.1.19"
              transmitDropsDesc noConvert s6 Hw)
    as (s7 & -> & H7); [set_solver|set_solver|exact H6|].
  rewrite bind_Ok_l.
  destruct (fetchInterfaceMetricFromOid_total t ".1.3.6.1.2.1.2.2.1.20"
              transmitErrorsDesc noConvert s7 Hw)
    as (s8 & -> & H8); [set_solver|set_solver|exact H7|].
  rewrite bind_Ok_l.
  eexists. split; [reflexivity|].
  unfold Close. apply stable_record; [apply engineInv_stable|].
  apply stable_Conn; [apply engineInv_stable|exact H8].
Qed.

Lemma upMetric_eq v s : upMetric c v s = upOf (Target (snmp s)) v.
Proof. reflexivity. Qed.

(** A goroutine that returns has run [collectMetrics] and then sent the one
    reachability metric. *)
Lemma collectForTarget_Ok t s' :
  collectForTarget net c t = Ok s' ->
  exists s, collectMetrics net c (newScope c t) = Ok s
            /\ engineInv t s /\ s' = send (upOf t (upValue s)) s.
Proof.
  unfold collectForTarget. intros H. inv_bind H.
  pose proof (collectMetrics_engineInv t _ _ (engineInv_newScope t) Ha) as Ha'.
  exists a. split; [exact Ha|]. split; [exact Ha'|].
  destruct Ha' as (_ & Ht & _).
  rewrite !upMetric_eq, Ht in H. unfold upValue.
  destruct (err a); injection H as <-; reflexivity.
Qed.

Lemma collectForTarget_total t :
  wellTyped (net t) -> exists s', collectForTarget net c t = Ok s'.
Proof.
  intros Hw.
  destruct (collectMetrics_total t (newScope c t) Hw (engineInv_newScope t))
    as (s & Hs & _); [reflexivity|].
  unfold collectForTarget. rewrite Hs, bind_Ok_l.
  destruct (err s); eauto.
Qed.

End Engine.

(** ** The fan-out *)

Lemma interleaving_Permutation {A} (ls : list (list A)) (out : list A) :
  interleaving ls out -> out ≡ₚ concat ls.
Proof.
  induction 1 as [ls Hnil | pre post x xs out _ IH].
  - induction Hnil as [|l ls -> _ IH]; [reflexivity | exact IH].
  - rewrite concat_app in *. simpl in *.
    rewrite IH. apply Permutation_middle.
Qed.

Lemma interleaving_idle {A} (ls : list (list A)) (out : list A) :
  interleaving ls out -> interleaving ([] :: ls) out.
Proof.
  induction 1 as [ls Hnil | pre post x xs out _ IH].
  - constructor. by constructor.
  - exact (interleaving_send ([] :: pre) post x xs out IH).
Qed.

(** One schedule always exists: the goroutines send one after the other. *)
Lemma interleaving_concat {A} (ls : list (list A)) : interleaving ls (concat ls).
Proof.
  induction ls as [|l ls IH]; simpl.
  - by constructor.
  - induction l as [|x xs IHl]; simpl.
    + by apply interleaving_idle.
    + exact (interleaving_send [] ls x xs _ IHl).
Qed.

Lemma filter_concat {A} (P : A -> Prop) `{!forall x, Decision (P x)} (ls : list (list A)) :
  filter P (concat ls) = concat (map (filter P) ls).
Proof.
  induction ls as [|l ls IH]; [reflexivity|].
  simpl. by rewrite filter_app, IH.
Qed.

Lemma interfaceMetricOf_not_up t t' m : interfaceMetricOf t' m -> ~ isUpFor t m.
Proof.
  intros (m' & -> & Hd & _) [Hup _]. rewrite Hup in Hd.
  revert Hd. unfold interfaceDescs. rewrite !elem_of_cons, elem_of_nil.
  intros [H|[H|[H|[H|[H|[H|[]]]]]]]; discriminate H.
Qed.

Section FanOut.

Variable net : string -> Device.
Variable c : JunosCollector.

(** What a goroutine that returns has sent: interface metrics of its target,
    then the one reachability metric. *)
Lemma collectForTarget_ch t s :
  collectForTarget net c t = Ok s ->
  exists ms, ch s = ms ++ [upOf t (upValue s)] /\ Forall (interfaceMetricOf t) ms.
Proof.
  intros H. apply collectForTarget_Ok in H as (s0 & _ & (_ & _ & Hc) & ->).
  exists (ch s0). split; [reflexivity | exact Hc].
Qed.

Lemma collectForTarget_up t t' s :
  collectForTarget net c t' = Ok s ->
  filter (isUpFor t) (ch s) = if decide (t = t') then [upOf t (upValue s)] else [].
Proof.
  intros H. apply collectForTarget_ch in H as (ms & -> & Hms).
  rewrite filter_app.
  assert (filter (isUpFor t) ms = []) as ->.
  { induction Hms as [|m ms Hm _ IH]; [reflexivity|].
    rewrite filter_cons_False; [exact IH|].
    eapply interfaceMetricOf_not_up, Hm. }
  simpl. destruct (decide (t = t')) as [->|Hne].
  - rewrite filter_cons_True; [reflexivity|]. split; reflexivity.
  - rewrite filter_cons_False; [reflexivity|]. simpl. intros [_ Heq].
    injection Heq as ->. by apply Hne.
Qed.

Lemma Collect_up_metrics scopes t :
  Forall2 (fun t s => collectForTarget net c t = Ok s) (targets c) scopes ->
  concat (map (filter (isUpFor t)) (map ch scopes)) =
  replicate (length (filter (eq t) (targets c))) (upOf t (reachability net c t)).
Proof.
  generalize (targets c) as ts. intros ts H.
  induction H as [|t' s ts scopes Hs _ IH]; [reflexivity|].
  simpl. rewrite IH, (collectForTarget_up t t' s Hs).
  destruct (decide (t = t')) as [->|Hne].
  - rewrite filter_cons_True by reflexivity. simpl.
    unfold reachability. rewrite Hs. reflexivity.
  - rewrite filter_cons_False by exact Hne. reflexivity.
Qed.

Lemma Collect_total :
  (forall t, t ∈ targets c -> wellTyped (net t)) -> exists sink, Collect net c sink.
Proof.
  intros Hw. unfold Collect.
  assert (exists scopes,
            Forall2 (fun t s => collectForTarget net c t = Ok s) (targets c) scopes)
    as (scopes & Hs).
  { revert Hw. generalize (targets c) as ts. intros ts Hw.
    induction ts as [|t ts IH].
    - exists []. constructor.
    - destruct IH as (scopes & Hs); [intros t' Ht'; apply Hw; by right|].
      destruct (collectForTarget_total net c t) as (s & Hs'); [apply Hw; by left|].
      exists (s :: scopes). by constructor. }
  exists (concat (map ch scopes)), scopes.
  split; [exact Hs | apply interleaving_concat].
Qed.

End FanOut.

Lemma Collect_elem net c sink m :
  Collect net c sink -> m ∈ sink ->
  exists t s, t ∈ targets c /\ collectForTarget net c t = Ok s /\ m ∈ ch s.
Proof.
  intros (scopes & Hs & Hi) Hm.
  apply interleaving_Permutation in Hi. rewrite Hi in Hm. clear Hi.
  revert Hm. generalize dependent (targets c). intros ts Hs.
  induction Hs as [|t s ts scopes Hts _ IH]; simpl.
  - intros Hm. by apply elem_of_nil in Hm.
  - rewrite elem_of_app. intros [Hm|Hm].
    + exists t, s. split; [by left | auto].
    + destruct (IH Hm) as (t' & s' & Ht' & H'). exists t', s'.
      split; [by right | exact H'].
Qed.

Lemma wellTyped_uplink : wellTyped uplinkDevice.
Proof. split; repeat constructor. Qed.

Lemma wellTyped_dead : wellTyped deadDevice.
Proof. split; repeat constructor. Qed.

Lemma wellTyped_sparse : wellTyped sparseDevice.
Proof. split; repeat constructor. Qed.

(** ** Reachability *)

(** C1 (amended).  When every row the devices deliver has the dynamic type the
    handlers assert, [Collect] returns; each goroutine sends exactly one
    reachability metric, labelled with its target, with value 1 if the scope
    holds no sticky error and 0 otherwise; and whatever the interleaving on the
    channel, the reachability metrics of a target in the sink are as many as
    the target is configured, all with that value. *)
Theorem reachability_metric_per_target net c :
  (forall t, t ∈ targets c -> wellTyped (net t)) ->
  (exists sink, Collect net c sink)
  /\ (forall t, t ∈ targets c ->
        exists s, collectForTarget net c t = Ok s
                  /\ filter (isUpFor t) (ch s) = [upOf t (upValue s)])
  /\ (forall sink t, Collect net c sink ->
        filter (isUpFor t) sink =
        replicate (length (filter (eq t) (targets c)))
                  (upOf t (reachability net c t))).
Proof.
  intros Hw. split; [by apply Collect_total|]. split.
  - intros t Ht. destruct (collectForTarget_total net c t (Hw t Ht)) as (s & Hs).
    exists s. split; [exact Hs|].
    rewrite (collectForTarget_up net c t t s Hs).
    by rewrite decide_True.
  - intros sink t (scopes & Hs & Hi).
    apply interleaving_Permutation in Hi.
    symmetry. apply replicate_Permutation.
    rewrite Hi, filter_concat, (Collect_up_metrics net c scopes t Hs).
    reflexivity.
Qed.

Lemma reachability_metric_per_target_witness :
  (exists sink, Collect lab labCollector sink)
  /\ (forall t, t ∈ targets labCollector ->
        exists s, collectForTarget lab labCollector t = Ok s
                  /\ filter (isUpFor t) (ch s) = [upOf t (upValue s)])
  /\ (forall sink t, Collect lab labCollector sink ->
        filter (isUpFor t) sink =
        replicate (length (filter (eq t) (targets labCollector)))
                  (upOf t (reachability lab labCollector t))).
Proof.
  apply (reachability_metric_per_target lab labCollector).
  intros t Ht. simpl in Ht.
  rewrite !elem_of_cons, elem_of_nil in Ht.
  destruct Ht as [->|[->|[->|[]]]].
  - exact wellTyped_uplink.
  - exact wellTyped_dead.
  - exact wellTyped_uplink.
Defined.

(** C1 as stated fails: a device that answers the name table with an Integer
    makes [handlePduAsLabel] panic, the goroutine sends no reachability
    metric and [Collect] does not return. *)
Lemma mistyped_row_no_reachability_metric :
  collectForTarget lab mistypedCollector "10.0.0.3" = Panic TypeAssertion
  /\ forall sink, ~ Collect lab mistypedCollector sink.
Proof.
  assert (collectForTarget lab mistypedCollector "10.0.0.3" = Panic TypeAssertion)
    as H by (vm_compute; reflexivity).
  split; [exact H|].
  intros sink (scopes & Hs & _). simpl in Hs.
  inversion Hs as [|t s ts ss Hts _]; subst.
  rewrite H in Hts. discriminate Hts.
Qed.

(** C2.  If session setup fails for a target, the error becomes the sticky
    error, the only transport operation is the failed [Connect] (no table is
    walked), the goroutine sends the reachability metric with value 0 and
    nothing else, and no interface metric bearing that target goes through
    the channel of a [Collect] that returns. *)
Theorem failed_setup_skips_walks net c t e :
  connectResult (net t) = Some e ->
  (exists s, collectForTarget net c t = Ok s
             /\ err s = Some e
             /\ calls s = [CallConnect (Some e)]
             /\ walked (calls s) = []
             /\ ch s = [upOf t 0])
  /\ (forall sink m, Collect net c sink -> m ∈ sink -> ~ interfaceMetricOf t m).
Proof.
  intros Hc.
  assert (collectForTarget net c t =
          Ok (send (upOf t 0)
                (set_err (Some e) (snd (Connect net (newScope c t)))))) as Hrun.
  { unfold collectForTarget, collectMetrics.
    change (fst (Connect net (newScope c t))) with (connectResult (net t)).
    rewrite Hc. reflexivity. }
  split.
  - eexists. split; [exact Hrun|]. simpl. rewrite Hc. auto.
  - intros sink m HC Hm Him.
    destruct (Collect_elem net c sink m HC Hm) as (t' & s & _ & Hs & Hms).
    destruct (collectForTarget_ch net c t' s Hs) as (ms & Hch & Hall).
    assert (t' = t) as ->.
    { rewrite Hch, elem_of_app in Hms. destruct Hms as [Hms|Hms].
      - rewrite Forall_forall in Hall.
        destruct (Hall m Hms) as (m1 & -> & _ & ls1 & H1).
        destruct Him as (m2 & [= <-] & _ & ls2 & H2).
        rewrite H1 in H2. by apply app_inj_tail in H2 as [_ ?].
      - apply list_elem_of_singleton in Hms. subst m.
        exfalso.
        exact (interfaceMetricOf_not_up t' t _ Him (conj eq_refl eq_refl)). }
    rewrite Hrun in Hs. injection Hs as <-. simpl in Hms.
    apply list_elem_of_singleton in Hms. subst m.
    exact (interfaceMetricOf_not_up t t _ Him (conj eq_refl eq_refl)).
Qed.

Lemma failed_setup_skips_walks_witness :
  (exists s, collectForTarget lab labCollector "10.0.0.2" = Ok s
             /\ err s = Some (TransportError 1)
             /\ calls s = [CallConnect (Some (TransportError 1))]
             /\ walked (calls s) = []
             /\ ch s = [upOf "10.0.0.2" 0])
  /\ (forall sink m, Collect lab labCollector sink -> m ∈ sink ->
                     ~ interfaceMetricOf "10.0.0.2" m).
Proof.
  apply (failed_setup_skips_walks lab labCollector "10.0.0.2" (TransportError 1)).
  reflexivity.
Defined.

(** ** The label table under counter walks *)

Lemma tableKept_refl s : tableKept s s.
Proof. split; [reflexivity|]. exists []. by rewrite app_nil_r. Qed.

Lemma tableKept_trans s1 s2 s3 : tableKept s1 s2 -> tableKept s2 s3 -> tableKept s1 s3.
Proof.
  intros [H1 (m1 & H1')] [H2 (m2 & H2')]. split; [congruence|].
  exists (m1 ++ m2). rewrite H2', H1'. by rewrite app_assoc.
Qed.

Lemma tableKept_arrays s s' id sl :
  labelsFull s -> tableKept s s' -> interfaceLabels s !! id = Some sl ->
  arrayAt (arrays s') (base sl) = arrayAt (arrays s) (base sl)
  /\ elems (arrays s') sl = elems (arrays s) sl.
Proof.
  intros Hf [_ (more & ->)] Hl.
  destruct (Hf _ _ Hl) as (_ & _ & Hb & _).
  split; [by apply arrayAt_app_l | by apply elems_app_l].
Qed.

Lemma tableKept_labelsOf s s' id :
  labelsFull s -> tableKept s s' -> labelsOf s' id = labelsOf s id.
Proof.
  intros Hf Hk. unfold labelsOf. rewrite (proj1 Hk).
  destruct (interfaceLabels s !! id) as [sl|] eqn:Hl; [|reflexivity].
  simpl. f_equal. eapply tableKept_arrays; eassumption.
Qed.

Lemma tableKept_labelsFull s s' : labelsFull s -> tableKept s s' -> labelsFull s'.
Proof.
  intros Hf Hk id sl Hl. rewrite (proj1 Hk) in Hl.
  destruct (tableKept_arrays s s' id sl Hf Hk Hl) as [-> _].
  destruct (Hf _ _ Hl) as (? & ? & ? & ?). destruct Hk as [_ (more & ->)].
  rewrite length_app. repeat split; try assumption. lia.
Qed.

Lemma handlePduAsMetric_tableKept c d p conv s r :
  labelsFull s -> handlePduAsMetric c d p conv s = Ok r -> tableKept s (snd r).
Proof.
  intros Hf H.
  destruct (handlePduAsMetric_frame _ _ _ _ _ _ H) as (Hu & _).
  destruct (Value p) as [| | |v| |] eqn:Hv; try contradiction.
  destruct (handlePduAsMetric_spec c d p conv s v Hf Hv) as (arr & Hspec).
  rewrite Hspec in H. injection H as <-.
  destruct (NewConstMetric _ _ _ _); (split; [reflexivity | by exists [arr]]).
Qed.

Lemma fetchInterfaceMetricFromOid_tableKept net c oid d conv s s' :
  labelsFull s -> fetchInterfaceMetricFromOid net c oid d conv s = Ok s' ->
  tableKept s s'.
Proof.
  intros Hf H. unfold fetchInterfaceMetricFromOid in H.
  inv_bind H. injection H as <-.
  assert (tableKept s (snd a)) as Hk.
  { eapply (Walk_inv net (tableKept s)); [| |apply tableKept_refl|exact Ha].
    - intros c0 s0 Hs0. exact Hs0.
    - intros p s0 r Hs0 Hr. eapply tableKept_trans; [exact Hs0|].
      eapply handlePduAsMetric_tableKept; [|exact Hr].
      eapply tableKept_labelsFull; eassumption. }
  destruct (keepFirst_fields (fst a) (snd a)) as (Hl & _ & _ & Harr & _).
  destruct Hk as [Hk1 Hk2]. split; [congruence | by rewrite Harr].
Qed.

Lemma labelsFull_labelledScope : labelsFull labelledScope.
Proof.
  unfold labelledScope.
  destruct (handlePduAsLabel_full labCollector 0
              (row ".1.3.6.1.2.1.31.1.1.1.1" "9" (octets "ge-0/0/0"))
              (newScope labCollector "10.0.0.1")) as (s & -> & Hs).
  - intros id sl Hl. simpl in Hl. by rewrite lookup_empty in Hl.
  - unfold numberOfInterfaceLabels. lia.
  - exact I.
  - exact Hs.
Qed.

(** C10.  On a scope whose stored label slices are full (length equal to
    capacity [numberOfInterfaceLabels], which is how [handlePduAsLabel]
    creates them: the fresh scope has it and the label handler keeps it, so
    it holds all along a collection): the [append] of
    [handlePduAsMetric] returns a slice on a newly allocated array, for a
    present row index as for an absent one; a counter row leaves the map and
    every array the table points to as they were; and so does a whole counter
    walk, so looking a row index up gives the same labels before and after. *)
Theorem counter_walk_keeps_label_table net c d conv s :
  labelsFull s ->
  (forall t, labelsFull (newScope c t))
  /\ (forall i p s', i < numberOfInterfaceLabels ->
        handlePduAsLabel c i p s = Ok s' -> labelsFull s')
  /\ (forall id,
     let a := append (default nilSlice (interfaceLabels s !! id))
                     (Target (snmp s)) (arrays s) in
     base (fst a) = length (arrays s) /\ exists arr, snd a = arrays s ++ [arr])
  /\ (forall p r, handlePduAsMetric c d p conv s = Ok r ->
        interfaceLabels (snd r) = interfaceLabels s
        /\ (forall id sl, interfaceLabels s !! id = Some sl ->
              arrayAt (arrays (snd r)) (base sl) = arrayAt (arrays s) (base sl))
        /\ labelsFull (snd r))
  /\ (forall oid s', fetchInterfaceMetricFromOid net c oid d conv s = Ok s' ->
        interfaceLabels s' = interfaceLabels s
        /\ (forall id sl, interfaceLabels s !! id = Some sl ->
              arrayAt (arrays s') (base sl) = arrayAt (arrays s) (base sl)
              /\ elems (arrays s') sl = elems (arrays s) sl)
        /\ (forall id, labelsOf s' id = labelsOf s id)
        /\ labelsFull s').
Proof.
  intros Hf. split; [|split; [|split; [|split]]].
  - intros t. apply (engineInv_newScope c t).
  - intros i p s' Hi H.
    destruct (handlePduAsLabel_frame _ _ _ _ _ H) as (Hb & _).
    destruct (handlePduAsLabel_full c i p s Hf Hi Hb) as (s'' & H'' & Hf'').
    rewrite H in H''. injection H'' as <-. exact Hf''.
  - intros id. cbv zeta. unfold append.
    assert (len (default nilSlice (interfaceLabels s !! id))
            = cap (default nilSlice (interfaceLabels s !! id))) as Hfull.
    { destruct (interfaceLabels s !! id) as [sl|] eqn:Hl; [|reflexivity].
      destruct (Hf _ _ Hl) as (H1 & H2 & _). simpl. congruence. }
    rewrite decide_False by lia. simpl. eauto.
  - intros p r H. pose proof (handlePduAsMetric_tableKept _ _ _ _ _ _ Hf H) as Hk.
    split; [exact (proj1 Hk)|]. split.
    + intros id sl Hl. eapply tableKept_arrays; eassumption.
    + eapply tableKept_labelsFull; eassumption.
  - intros oid s' H.
    pose proof (fetchInterfaceMetricFromOid_tableKept _ _ _ _ _ _ _ Hf H) as Hk.
    split; [exact (proj1 Hk)|]. split; [|split].
    + intros id sl Hl. eapply tableKept_arrays; eassumption.
    + intros id. by apply tableKept_labelsOf.
    + eapply tableKept_labelsFull; eassumption.
Qed.

Lemma counter_walk_keeps_label_table_witness :
  labelsFull labelledScope
  /\ (forall oid s',
        fetchInterfaceMetricFromOid lab labCollector oid receiveBytesDesc
          bitsToBytes labelledScope = Ok s' ->
        interfaceLabels s' = interfaceLabels labelledScope
        /\ (forall id sl, interfaceLabels labelledScope !! id = Some sl ->
              arrayAt (arrays s') (base sl) = arrayAt (arrays labelledScope) (base sl)
              /\ elems (arrays s') sl = elems (arrays labelledScope) sl)
        /\ (forall id, labelsOf s' id = labelsOf labelledScope id)
        /\ labelsFull s').
Proof.
  split; [exact labelsFull_labelledScope|].
  exact (proj2 (proj2 (proj2 (proj2
           (counter_walk_keeps_label_table lab labCollector
              receiveBytesDesc bitsToBytes labelledScope
              labelsFull_labelledScope))))).
Defined.

(** The store does model sharing: with spare capacity [append] writes into the
    array of its argument, which any other slice on that array sees. *)
Example append_with_spare_capacity_writes_in_place :
  let h := [["a"; "b"; "old"]] in
  let shared := Slice 0 3 3 in
  let a := append (Slice 0 2 3) "new" h in
  fst a = Slice 0 3 3 /\ elems (snd a) shared = ["a"; "b"; "new"].
Proof. split; reflexivity. Qed.

(** ** Rows of an unexpected type *)

(** C3 (amended).  The handlers assert the dynamic type of the row value
    without a check.  On a scope whose label slices are full, with a label slot
    below [numberOfInterfaceLabels]: [handlePduAsLabel] completes when the
    value is a byte string and panics on any other value;
    [handlePduAsMetric] completes when the value is a [uint] and panics on
    any other value.  Nothing turns the mismatch into an error result. *)
Theorem handlers_panic_on_unexpected_type c i d conv p s :
  labelsFull s -> i < numberOfInterfaceLabels ->
  (isBytes (Value p) -> completes (handlePduAsLabel c i p s))
  /\ (~ isBytes (Value p) -> handlePduAsLabel c i p s = Panic TypeAssertion)
  /\ (isUint (Value p) -> completes (handlePduAsMetric c d p conv s))
  /\ (~ isUint (Value p) -> handlePduAsMetric c d p conv s = Panic TypeAssertion).
Proof.
  intros Hf Hi. repeat split.
  - intros Hb. destruct (handlePduAsLabel_full c i p s Hf Hi Hb) as (s' & -> & _).
    exact I.
  - intros Hb. unfold handlePduAsLabel.
    destruct (Value p); try reflexivity. exfalso. apply Hb. exact I.
  - intros Hu. destruct (Value p) as [| | |v| |] eqn:Hv; try contradiction.
    destruct (handlePduAsMetric_spec c d p conv s v Hf Hv) as (arr & ->).
    exact I.
  - intros Hu. unfold handlePduAsMetric.
    destruct (Value p); try reflexivity. exfalso. apply Hu. exact I.
Qed.

Lemma handlers_panic_on_unexpected_type_witness :
  (isBytes (Value (row ".1.3.6.1.2.1.2.2.1.10" "9" (VUint 8000))) ->
   completes (handlePduAsLabel labCollector 0
                (row ".1.3.6.1.2.1.2.2.1.10" "9" (VUint 8000)) labelledScope))
  /\ (~ isBytes (Value (row ".1.3.6.1.2.1.2.2.1.10" "9" (VUint 8000))) ->
      handlePduAsLabel labCollector 0
        (row ".1.3.6.1.2.1.2.2.1.10" "9" (VUint 8000)) labelledScope
      = Panic TypeAssertion)
  /\ (isUint (Value (row ".1.3.6.1.2.1.2.2.1.10" "9" (VUint 8000))) ->
      completes (handlePduAsMetric labCollector receiveBytesDesc
                   (row ".1.3.6.1.2.1.2.2.1.10" "9" (VUint 8000)) bitsToBytes
                   labelledScope))
  /\ (~ isUint (Value (row ".1.3.6.1.2.1.2.2.1.10" "9" (VUint 8000))) ->
      handlePduAsMetric labCollector receiveBytesDesc
        (row ".1.3.6.1.2.1.2.2.1.10" "9" (VUint 8000)) bitsToBytes labelledScope
      = Panic TypeAssertion).
Proof.
  apply (handlers_panic_on_unexpected_type labCollector 0 receiveBytesDesc
           bitsToBytes (row ".1.3.6.1.2.1.2.2.1.10" "9" (VUint 8000)) labelledScope).
  - exact labelsFull_labelledScope.
  - unfold numberOfInterfaceLabels. lia.
Defined.

(** C3 as stated fails: a counter value in a label walk and a byte string in
    a counter walk make the handlers panic; there is no row-level failure. *)
Lemma mistyped_row_panics :
  handlePduAsLabel labCollector 0
    (row ".1.3.6.1.2.1.31.1.1.1.1" "9" (VUint 5)) (newScope labCollector "10.0.0.3")
  = Panic TypeAssertion
  /\ handlePduAsMetric labCollector receiveBytesDesc
       (row ".1.3.6.1.2.1.2.2.1.10" "9" (octets "8000")) bitsToBytes
       (newScope labCollector "10.0.0.3")
     = Panic TypeAssertion.
Proof. split; reflexivity. Qed.

(** ** Counter rows without labels *)

(** A counter row whose index is in no label entry: the label list is the
    target alone, and the registry refuses it for an interface descriptor. *)
Lemma handlePduAsMetric_unlabelled c d conv p v s :
  labelsFull s -> d ∈ interfaceDescs -> Value p = VUint v ->
  interfaceLabels s !! getId (Name p) = None ->
  rowLabels s (getId (Name p)) = [Target (snmp s)]
  /\ exists arr,
       handlePduAsMetric c d p conv s =
       Ok (Some errInconsistentCardinality, set_arrays (arrays s ++ [arr]) s).
Proof.
  intros Hf Hd Hv Hl.
  assert (rowLabels s (getId (Name p)) = [Target (snmp s)]) as Hr.
  { unfold rowLabels, labelsOf. rewrite Hl. reflexivity. }
  split; [exact Hr|].
  destruct (handlePduAsMetric_spec c d p conv s v Hf Hv) as (arr & ->).
  exists arr. rewrite Hr. unfold NewConstMetric.
  rewrite decide_False; [reflexivity|].
  revert Hd. unfold interfaceDescs. rewrite !elem_of_cons, elem_of_nil.
  intros [->|[->|[->|[->|[->|[->|[]]]]]]]; discriminate.
Qed.

(** C4, what the code does.  For a counter row whose index is in no label
    entry, the lookup gives the nil slice and the label list handed to the
    registry is the target alone: one value where the interface descriptors
    declare three.  The construction fails, the handler returns
    [errInconsistentCardinality] and sends nothing; no metric with the labels
    ("", "", target) is emitted. *)
Theorem unlabelled_counter_row_is_rejected c d conv p v s :
  labelsFull s -> d ∈ interfaceDescs -> Value p = VUint v ->
  interfaceLabels s !! getId (Name p) = None ->
  rowLabels s (getId (Name p)) = [Target (snmp s)]
  /\ length (variableLabels d) = 3
  /\ exists r,
       handlePduAsMetric c d p conv s = Ok r
       /\ fst r = Some errInconsistentCardinality
       /\ ch (snd r) = ch s
       /\ interfaceLabels (snd r) = interfaceLabels s.
Proof.
  intros Hf Hd Hv Hl.
  destruct (handlePduAsMetric_unlabelled c d conv p v s Hf Hd Hv Hl)
    as (Hr & arr & Hrun).
  split; [exact Hr|]. split.
  - revert Hd. unfold interfaceDescs. rewrite !elem_of_cons, elem_of_nil.
    intros [->|[->|[->|[->|[->|[->|[]]]]]]]; reflexivity.
  - eexists. split; [exact Hrun|]. simpl. auto.
Qed.

Lemma unlabelled_counter_row_is_rejected_witness :
  rowLabels labelledScope (getId (Name (row ".1.3.6.1.2.1.2.2.1.10" "7" (VUint 800))))
  = [Target (snmp labelledScope)]
  /\ length (variableLabels receiveBytesDesc) = 3
  /\ exists r,
       handlePduAsMetric labCollector receiveBytesDesc
         (row ".1.3.6.1.2.1.2.2.1.10" "7" (VUint 800)) bitsToBytes labelledScope = Ok r
       /\ fst r = Some errInconsistentCardinality
       /\ ch (snd r) = ch labelledScope
       /\ interfaceLabels (snd r) = interfaceLabels labelledScope.
Proof.
  apply (unlabelled_counter_row_is_rejected labCollector receiveBytesDesc
           bitsToBytes (row ".1.3.6.1.2.1.2.2.1.10" "7" (VUint 800)) 800 labelledScope).
  - exact labelsFull_labelledScope.
  - unfold interfaceDescs. left.
  - reflexivity.
  - vm_compute. reflexivity.
Defined.

(** ** The sticky error and the order of the walks *)

Section Sticky.

Variable net : string -> Device.
Variable c : JunosCollector.

Lemma Connect_calls s :
  calls (snd (Connect net s)) =
  calls s ++ [CallConnect (connectResult (net (Target (snmp s))))].
Proof. reflexivity. Qed.

Lemma collectMetrics_firstWins s s' :
  firstWins s -> collectMetrics net c s = Ok s' -> firstWins s'.
Proof.
  intros Hs H. unfold firstWins in Hs.
  apply collectMetrics_Ok in H as [(e & Hc & He & ->) | (Hc & s1 & s2 & s3 & s4 & s5 & s6
      & s7 & s8 & H1 & H2 & H3 & H4 & H5 & H6 & H7 & H8 & ->)].
  - unfold firstWins. simpl. rewrite failures_app, Hc. simpl.
    rewrite He in Hs. destruct (failures (calls s)); [reflexivity | discriminate].
  - assert (firstWins (snd (Connect net s))) as H0.
    { unfold firstWins. rewrite Connect_calls, failures_app, Hc. simpl.
      rewrite app_nil_r. exact Hs. }
    apply fetchInterfaceLabelFromOid_step in H1, H2.
    apply fetchInterfaceMetricFromOid_step in H3, H4, H5, H6, H7, H8.
    pose proof (walkStep_firstWins _ _ _ _ H1 H0) as F1.
    pose proof (walkStep_firstWins _ _ _ _ H2 F1) as F2.
    pose proof (walkStep_firstWins _ _ _ _ H3 F2) as F3.
    pose proof (walkStep_firstWins _ _ _ _ H4 F3) as F4.
    pose proof (walkStep_firstWins _ _ _ _ H5 F4) as F5.
    pose proof (walkStep_firstWins _ _ _ _ H6 F5) as F6.
    pose proof (walkStep_firstWins _ _ _ _ H7 F6) as F7.
    pose proof (walkStep_firstWins _ _ _ _ H8 F7) as F8.
    unfold firstWins in *. simpl. rewrite failures_app. simpl.
    rewrite app_nil_r. exact F8.
Qed.

(** Once the session is set up, the eight tables are walked, in the order of
    the source, whatever the walks answer. *)
Lemma collectMetrics_walked s s' :
  connectResult (net (Target (snmp s))) = None ->
  collectMetrics net c s = Ok s' ->
  walked (calls s') = walked (calls s) ++ labelOids ++ counterOids.
Proof.
  intros Hc H.
  apply collectMetrics_Ok in H as [(e & Hc' & _) | (_ & s1 & s2 & s3 & s4 & s5 & s6
      & s7 & s8 & H1 & H2 & H3 & H4 & H5 & H6 & H7 & H8 & ->)]; [congruence|].
  apply fetchInterfaceLabelFromOid_step, walkStep_walked in H1, H2.
  apply fetchInterfaceMetricFromOid_step, walkStep_walked in H3, H4, H5, H6, H7, H8.
  simpl. rewrite walked_app. simpl. rewrite app_nil_r.
  rewrite H8, H7, H6, H5, H4, H3, H2, H1, Connect_calls, walked_app. simpl.
  rewrite app_nil_r, <- !app_assoc. reflexivity.
Qed.

Lemma collectForTarget_history t s :
  collectForTarget net c t = Ok s ->
  firstWins s
  /\ (connectResult (net t) = None -> walked (calls s) = labelOids ++ counterOids).
Proof.
  intros H. apply collectForTarget_Ok in H as (s0 & H0 & _ & ->).
  split.
  - apply (collectMetrics_firstWins _ _ (eq_refl : firstWins (newScope c t))) in H0.
    exact H0.
  - intros Hc. exact (collectMetrics_walked (newScope c t) _ Hc H0).
Qed.

End Sticky.

(** C5.  For a goroutine that returns: the sticky error is the first error
    the transport operations answered, in the order session setup, label
    walks, counter walks (and there is none when no operation failed), so no
    later failure replaced it; and when session setup succeeded all eight
    tables were walked, in order, whichever of the walks failed. *)
Theorem first_error_wins net c t s :
  collectForTarget net c t = Ok s ->
  err s = head (failures (calls s))
  /\ (forall e, head (failures (calls s)) = Some e ->
        exists later, failures (calls s) = e :: later /\ err s = Some e)
  /\ (connectResult (net t) = None ->
        walked (calls s) = labelOids ++ counterOids).
Proof.
  intros H. destruct (collectForTarget_history net c t s H) as [Hf Hw].
  split; [exact Hf|]. split; [|exact Hw].
  intros e He. unfold firstWins in Hf. rewrite Hf.
  destruct (failures (calls s)) as [|e' later]; [discriminate|].
  injection He as ->. eauto.
Qed.

Lemma first_error_wins_witness :
  err sparseRun = head (failures (calls sparseRun))
  /\ (forall e, head (failures (calls sparseRun)) = Some e ->
        exists later, failures (calls sparseRun) = e :: later /\ err sparseRun = Some e)
  /\ (connectResult (lab "10.0.0.4") = None ->
        walked (calls sparseRun) = labelOids ++ counterOids).
Proof.
  apply (first_error_wins lab labCollector "10.0.0.4" sparseRun).
  vm_compute. reflexivity.
Defined.

(** On that run two operations fail, the receive-bytes walk (stopped by its
    callback) and then the transmit-bytes walk (a transport error); the first
    is kept. *)
Example two_failures_first_kept :
  failures (calls sparseRun) = [errInconsistentCardinality; TransportError 3]
  /\ err sparseRun = Some errInconsistentCardinality.
Proof. split; vm_compute; reflexivity. Qed.

(** ** A counter row that cannot be turned into a metric *)

Lemma labelledRow_metric c d conv s0 s q :
  labelsFull s0 -> tableKept s0 s -> snmp s = snmp s0 -> d ∈ interfaceDescs ->
  labelledRow s0 q ->
  exists arr,
    handlePduAsMetric c d q conv s =
    Ok (None, send (rowMetric d conv s0 q) (set_arrays (arrays s ++ [arr]) s)).
Proof.
  intros Hf Hk Hsn Hd [Hu [sl Hl]].
  unfold rowMetric.
  destruct (Value q) as [| | |w| |] eqn:Hv; try contradiction.
  pose proof (tableKept_labelsFull _ _ Hf Hk) as Hf'.
  destruct (handlePduAsMetric_spec c d q conv s w Hf' Hv) as (arr & ->).
  exists arr.
  assert (rowLabels s (getId (Name q)) = rowLabels s0 (getId (Name q))) as ->.
  { unfold rowLabels. by rewrite (tableKept_labelsOf _ _ _ Hf Hk), Hsn. }
  unfold NewConstMetric. rewrite decide_True; [reflexivity|].
  unfold rowLabels, labelsOf. rewrite Hl. simpl.
  destruct (Hf _ _ Hl) as (Hlen & _ & _ & Harr).
  rewrite length_app. unfold elems. rewrite length_take, Hlen, Harr. simpl.
  revert Hd. unfold interfaceDescs. rewrite !elem_of_cons, elem_of_nil.
  intros [->|[->|[->|[->|[->|[->|[]]]]]]]; reflexivity.
Qed.

(** A walk over rows that all have labels hands every one of them to the
    callback and sends a metric for each. *)
Lemma walkRows_labelled c oid d conv s0 rows final s :
  labelsFull s0 -> d ∈ interfaceDescs -> Forall (labelledRow s0) rows ->
  tableKept s0 s -> snmp s = snmp s0 ->
  exists s1,
    walkRows oid rows final (fun pdu s => handlePduAsMetric c d pdu conv s) s
    = Ok (final, s1)
    /\ tableKept s0 s1 /\ snmp s1 = snmp s0 /\ err s1 = err s
    /\ ch s1 = ch s ++ map (rowMetric d conv s0) rows
    /\ calls s1 = calls s ++ rowCalls oid rows.
Proof.
  intros Hf Hd Hrows. revert s.
  induction Hrows as [|q rows Hq _ IH]; intros s Hk Hsn; simpl.
  - exists s. rewrite !app_nil_r.
    split; [reflexivity|]. split; [exact Hk|]. auto.
  - destruct (labelledRow_metric c d conv s0 (record (CallRow oid (Name q)) s) q
                Hf Hk Hsn Hd Hq) as (arr & ->).
    simpl.
    edestruct IH as (s1 & -> & Hk1 & Hsn1 & He1 & Hc1 & Hcalls1).
    + eapply tableKept_trans; [exact Hk|].
      split; [reflexivity|]. by exists [arr].
    + exact Hsn.
    + exists s1. simpl in *. rewrite Hc1, Hcalls1, <- !app_assoc.
      split; [reflexivity|]. split; [exact Hk1|]. auto.
Qed.

(** C6 (amended).  In a counter walk, let the rows before [p] have labels and
    let [p] be a row the registry refuses (its index is in no label entry).
    Then the walk returns the construction error and stops there: the rows up
    to and including [p] were handed to the callback and none after it, the
    metrics of the rows before [p] were sent, and the error is the sticky
    error unless one was already recorded.  The walks that follow are still
    made: every goroutine that returns after a successful session setup has
    walked all eight tables. *)
Theorem failed_row_stops_its_walk net c oid d conv s pre p post final v :
  labelsFull s -> d ∈ interfaceDescs ->
  tables (net (Target (snmp s))) oid = (pre ++ p :: post, final) ->
  Forall (labelledRow s) pre ->
  Value p = VUint v -> interfaceLabels s !! getId (Name p) = None ->
  (exists s',
     fetchInterfaceMetricFromOid net c oid d conv s = Ok s'
     /\ delivered oid (calls s') = delivered oid (calls s) ++ map Name (pre ++ [p])
     /\ failures (calls s') = failures (calls s) ++ [errInconsistentCardinality]
     /\ err s' = Some (default errInconsistentCardinality (err s))
     /\ ch s' = ch s ++ map (rowMetric d conv s) pre
     /\ walked (calls s') = walked (calls s) ++ [oid])
  /\ (forall t s1, collectForTarget net c t = Ok s1 ->
        connectResult (net t) = None ->
        walked (calls s1) = labelOids ++ counterOids).
Proof.
  intros Hf Hd Ht Hpre Hv Hl.
  split; [|intros t s1 H1; apply (collectForTarget_history net c t s1 H1)].
  unfold fetchInterfaceMetricFromOid, Walk. rewrite Ht. simpl fst. simpl snd.
  rewrite walkRows_app.
  destruct (walkRows_labelled c oid d conv s pre None (record (CallWalk oid) s)
              Hf Hd Hpre (tableKept_refl s) eq_refl)
    as (s1 & -> & Hk1 & Hsn1 & He1 & Hc1 & Hcalls1).
  rewrite bind_Ok_l. simpl fst. simpl snd. cbv iota. simpl walkRows.
  pose proof (tableKept_labelsFull _ _ Hf Hk1) as Hf1.
  destruct (handlePduAsMetric_unlabelled c d conv p v
              (record (CallRow oid (Name p)) s1)) as (_ & arr & ->);
    [exact Hf1|exact Hd|exact Hv|simpl; by rewrite (proj1 Hk1)|].
  rewrite !bind_Ok_l. cbn [fst snd]. eexists. split; [reflexivity|].
  match goal with |- context [keepFirst ?e ?x] =>
    destruct (keepFirst_fields e x) as (_ & _ & Hch & _ & Hcalls) end.
  rewrite Hch, Hcalls, keepFirst_err. simpl. rewrite Hcalls1, Hc1, He1. simpl.
  rewrite !delivered_app, !failures_app, !walked_app.
  rewrite delivered_rowCalls, failures_rowCalls, walked_rowCalls. simpl.
  rewrite !decide_True by reflexivity. simpl.
  rewrite map_app, !app_nil_r, <- !app_assoc. simpl.
  repeat split; try reflexivity.
  destruct (err s); reflexivity.
Qed.

Lemma afterLabels_engineInv net c t s :
  afterLabels net c t = Ok s -> engineInv t s.
Proof.
  unfold afterLabels. intros H. inv_bind H.
  assert (forall oid i x y, i < numberOfInterfaceLabels -> engineInv t x ->
            fetchInterfaceLabelFromOid net c oid i x = Ok y -> engineInv t y) as HL.
  { intros oid i x y Hi Hx Hxy.
    eapply (fetchInterfaceLabelFromOid_inv net c (engineInv t));
      [apply engineInv_stable| |exact Hx|exact Hxy].
    intros p x' y' Hx' Hxy'. eapply engineInv_label; eassumption. }
  eapply HL; [|eapply HL; [| |exact Ha]|exact H];
    try (unfold numberOfInterfaceLabels; lia).
  apply Connect_engineInv, engineInv_newScope.
Qed.

Lemma labelsFull_sparseLabelled : labelsFull sparseLabelled.
Proof.
  apply (afterLabels_engineInv lab labCollector "10.0.0.4").
  vm_compute. reflexivity.
Qed.

Lemma failed_row_stops_its_walk_witness :
  (exists s',
     fetchInterfaceMetricFromOid lab labCollector ".1.3.6.1.2.1.2.2.1.10"
       receiveBytesDesc bitsToBytes sparseLabelled = Ok s'
     /\ delivered ".1.3.6.1.2.1.2.2.1.10" (calls s') =
        delivered ".1.3.6.1.2.1.2.2.1.10" (calls sparseLabelled)
        ++ map Name ([row ".1.3.6.1.2.1.2.2.1.10" "9" (VUint 8000)]
                     ++ [row ".1.3.6.1.2.1.2.2.1.10" "7" (VUint 800)])
     /\ failures (calls s') =
        failures (calls sparseLabelled) ++ [errInconsistentCardinality]
     /\ err s' = Some (default errInconsistentCardinality (err sparseLabelled))
     /\ ch s' = ch sparseLabelled
                ++ map (rowMetric receiveBytesDesc bitsToBytes sparseLabelled)
                       [row ".1.3.6.1.2.1.2.2.1.10" "9" (VUint 8000)]
     /\ walked (calls s') =
        walked (calls sparseLabelled) ++ [".1.3.6.1.2.1.2.2.1.10"])
  /\ (forall t s1, collectForTarget lab labCollector t = Ok s1 ->
        connectResult (lab t) = None ->
        walked (calls s1) = labelOids ++ counterOids).
Proof.
  apply (failed_row_stops_its_walk lab labCollector ".1.3.6.1.2.1.2.2.1.10"
           receiveBytesDesc bitsToBytes sparseLabelled
           [row ".1.3.6.1.2.1.2.2.1.10" "9" (VUint 8000)]
           (row ".1.3.6.1.2.1.2.2.1.10" "7" (VUint 800))
           [row ".1.3.6.1.2.1.2.2.1.10" "12" (VUint 80)] None 800).
  - exact labelsFull_sparseLabelled.
  - unfold interfaceDescs. left.
  - vm_compute. reflexivity.
  - constructor; [|constructor]. split; [exact I|].
    vm_compute. eexists. reflexivity.
  - reflexivity.
  - vm_compute. reflexivity.
Defined.

(** C6 as stated fails.  The receive-bytes table of 10.0.0.4 has rows 9, 7
    and 12.  Row 7 cannot be turned into a metric; row 12, which has a label
    entry, comes after it and is never handed to the callback: the goroutine
    sends the receive-bytes metric of row 9, the transmit-bytes metric of row
    9 and the reachability metric, and nothing for row 12. *)
Lemma rows_after_failed_row_are_skipped :
  collectForTarget lab labCollector "10.0.0.4" = Ok sparseRun
  /\ map Name (fst (tables (lab "10.0.0.4") ".1.3.6.1.2.1.2.2.1.10")) =
     [".1.3.6.1.2.1.2.2.1.10.9"; ".1.3.6.1.2.1.2.2.1.10.7"; ".1.3.6.1.2.1.2.2.1.10.12"]
  /\ delivered ".1.3.6.1.2.1.2.2.1.10" (calls sparseRun) =
     [".1.3.6.1.2.1.2.2.1.10.9"; ".1.3.6.1.2.1.2.2.1.10.7"]
  /\ labelsOf sparseRun "12" = Some ["ge-0/0/3"; ""]
  /\ ch sparseRun =
     [Some (ConstMetric receiveBytesDesc GaugeValue 1000 ["ge-0/0/0"; "uplink"; "10.0.0.4"]);
      Some (ConstMetric transmitBytesDesc GaugeValue 200 ["ge-0/0/0"; "uplink"; "10.0.0.4"]);
      upOf "10.0.0.4" 0].
Proof.
  split; [vm_compute; reflexivity|].
  split; [vm_compute; reflexivity|].
  split; [vm_compute; reflexivity|].
  split; vm_compute; reflexivity.
Qed.

(** ** The row index, in label walks and counter walks *)

Lemma handlePduAsLabel_by_id c i p q s :
  getId (Name p) = getId (Name q) -> Value p = Value q ->
  handlePduAsLabel c i p s = handlePduAsLabel c i q s.
Proof. intros Hid Hv. unfold handlePduAsLabel. by rewrite Hid, Hv. Qed.

Lemma handlePduAsMetric_by_id c d conv p q s :
  getId (Name p) = getId (Name q) -> Value p = Value q ->
  handlePduAsMetric c d p conv s = handlePduAsMetric c d q conv s.
Proof. intros Hid Hv. unfold handlePduAsMetric. by rewrite Hid, Hv. Qed.

Example getId_examples :
  getId ".1.3.6.1.2.1.2.2.1.10.9" = "9" /\ getId "508" = "508"
  /\ getId "" = "" /\ getId "1.2." = "".
Proof. repeat split; reflexivity. Qed.

(** ** The scenarios of the spec *)

(** Row 9 named ge-0/0/0 and described as uplink, 8000 in the receive-bytes
    table: one interface metric with value 1000, and reachability 1. *)
Example scenario_uplink :
  ch (orElse (collectForTarget lab labCollector "10.0.0.1")
             (newScope labCollector "10.0.0.1")) =
  [Some (ConstMetric receiveBytesDesc GaugeValue 1000
           ["ge-0/0/0"; "uplink"; "10.0.0.1"]);
   upOf "10.0.0.1" 1].
Proof. vm_compute. reflexivity. Qed.

(** Session setup times out: reachability 0 and nothing else. *)
Example scenario_timeout :
  ch (orElse (collectForTarget lab labCollector "10.0.0.2")
             (newScope labCollector "10.0.0.2")) =
  [upOf "10.0.0.2" 0].
Proof. vm_compute. reflexivity. Qed.

(** * Further properties of the collector *)

(** ** Label rows *)

Lemma labelView_lookup s id : labelView s !! id = labelsOf s id.
Proof. unfold labelView, labelsOf. apply lookup_fmap. Qed.

Lemma elems_full (h : list (list string)) sl :
  length (arrayAt h (base sl)) = len sl -> elems h sl = arrayAt h (base sl).
Proof. intros H. unfold elems. apply take_ge. lia. Qed.

Lemma tableInv_newScope c t : tableInv (newScope c t).
Proof.
  split.
  - intros id sl Hl. simpl in Hl. by rewrite lookup_empty in Hl.
  - intros id1 id2 sl1 sl2 Hl. simpl in Hl. by rewrite lookup_empty in Hl.
Qed.

(** What one label row does to the table, read as a map: the slot of its row
    index is written, an absent entry is created with empty slots, and no
    other row index changes. *)
Lemma handlePduAsLabel_view c i p s :
  tableInv s -> i < numberOfInterfaceLabels -> isBytes (Value p) ->
  exists s',
    handlePduAsLabel c i p s = Ok s'
    /\ tableInv s'
    /\ labelView s' = recordLabel i (getId (Name p)) (labelValue p) (labelView s).
Proof.
  intros [Hf Hsep] Hi Hb.
  destruct (handlePduAsLabel_full c i p s Hf Hi Hb) as (s' & Hrun & Hf').
  exists s'. split; [exact Hrun|].
  unfold handlePduAsLabel in Hrun. unfold labelValue.
  revert Hrun. generalize (getId (Name p)) as k. intros k Hrun.
  destruct (Value p) as [| |b| | |]; try contradiction.
  destruct (interfaceLabels s !! k) as [sl|] eqn:Hl; simpl in Hrun.
  - destruct (Hf _ _ Hl) as (Hlen & Hcap & Hbase & Harr).
    unfold setIndex in Hrun. rewrite decide_True in Hrun by lia.
    simpl in Hrun. injection Hrun as <-.
    split; [split; [exact Hf'|exact Hsep]|].
    apply map_eq. intros id. unfold recordLabel.
    rewrite !labelView_lookup. unfold labelsOf. simpl.
    destruct (decide (k = id)) as [<-|Hne].
    + rewrite lookup_insert_eq.
      rewrite Hl. simpl. f_equal.
      rewrite !elems_full; [by rewrite arrayAt_insert_eq|congruence|].
      rewrite arrayAt_insert_eq by assumption. rewrite length_insert. congruence.
    + rewrite lookup_insert_ne by assumption. rewrite labelView_lookup.
      unfold labelsOf.
      destruct (interfaceLabels s !! id) as [sl'|] eqn:Hl'; [|reflexivity].
      simpl. f_equal. unfold elems. rewrite arrayAt_insert_ne; [reflexivity|].
      intros Heq. apply Hne. exact (Hsep _ _ _ _ Hl Hl' Heq).
  - unfold setIndex in Hrun. simpl in Hrun.
    rewrite decide_True in Hrun by exact Hi. simpl in Hrun. injection Hrun as <-.
    split; [split; [exact Hf'|]|].
    + intros id1 id2 sl1 sl2 H1 H2 Hbase. simpl in H1, H2.
      destruct (decide (k = id1)) as [<-|Hn1], (decide (k = id2)) as [<-|Hn2];
        [reflexivity| | |].
      * rewrite lookup_insert_eq in H1. rewrite lookup_insert_ne in H2 by assumption.
        injection H1 as <-. simpl in Hbase.
        destruct (Hf _ _ H2) as (_ & _ & Hb2 & _). lia.
      * rewrite lookup_insert_eq in H2. rewrite lookup_insert_ne in H1 by assumption.
        injection H2 as <-. simpl in Hbase.
        destruct (Hf _ _ H1) as (_ & _ & Hb1 & _). lia.
      * rewrite lookup_insert_ne in H1, H2 by assumption.
        exact (Hsep _ _ _ _ H1 H2 Hbase).
    + apply map_eq. intros id. unfold recordLabel.
      rewrite !labelView_lookup. unfold labelsOf. simpl.
      destruct (decide (k = id)) as [<-|Hne].
      * rewrite !lookup_insert_eq.
        rewrite Hl. simpl. f_equal.
        rewrite elems_full.
        -- simpl. rewrite arrayAt_insert_eq by (rewrite length_app; simpl; lia).
           by rewrite arrayAt_app_new.
        -- simpl. rewrite arrayAt_insert_eq by (rewrite length_app; simpl; lia).
           rewrite length_insert, arrayAt_app_new. reflexivity.
      * rewrite !lookup_insert_ne by assumption. rewrite labelView_lookup.
        unfold labelsOf.
        destruct (interfaceLabels s !! id) as [sl'|] eqn:Hl'; [|reflexivity].
        simpl. f_equal. destruct (Hf _ _ Hl') as (_ & _ & Hb' & _).
        unfold elems. rewrite arrayAt_insert_ne by lia.
        by rewrite arrayAt_app_l.
Qed.

Lemma recordLabel_commute i j id1 id2 v w (m : gmap string (list string)) :
  i <> j \/ id1 <> id2 ->
  recordLabel i id1 v (recordLabel j id2 w m)
  = recordLabel j id2 w (recordLabel i id1 v m).
Proof.
  intros H. unfold recordLabel.
  destruct (decide (id1 = id2)) as [->|Hne].
  - destruct H as [Hij|]; [|congruence].
    rewrite !lookup_insert_eq, !insert_insert_eq. simpl.
    f_equal. by apply list_insert_insert_ne.
  - rewrite !lookup_insert_ne by congruence.
    by apply insert_insert_ne.
Qed.

Lemma recordLabel_overwrite i id v w (m : gmap string (list string)) :
  recordLabel i id v (recordLabel i id w m) = recordLabel i id v m.
Proof.
  unfold recordLabel. rewrite lookup_insert_eq, insert_insert_eq. simpl.
  f_equal. apply list_insert_insert_eq.
Qed.

(** X1.  A label row whose value is a byte string, handled for a slot below
    [numberOfInterfaceLabels] on a table whose entries are full and do not
    share arrays: the handler returns; the entry of the row's index has the
    row's string in that slot, an entry that did not exist is created with
    the other slot empty; no other row index changes; and nothing is sent,
    recorded or stored as an error. *)
Theorem label_row_writes_one_slot c i p s :
  tableInv s -> i < numberOfInterfaceLabels -> isBytes (Value p) ->
  exists s',
    handlePduAsLabel c i p s = Ok s'
    /\ tableInv s'
    /\ labelsOf s' (getId (Name p)) =
       Some (<[i := labelValue p]> (default emptyLabels (labelsOf s (getId (Name p)))))
    /\ (forall id, id <> getId (Name p) -> labelsOf s' id = labelsOf s id)
    /\ ch s' = ch s /\ err s' = err s /\ calls s' = calls s /\ snmp s' = snmp s.
Proof.
  intros Hinv Hi Hb.
  destruct (handlePduAsLabel_view c i p s Hinv Hi Hb) as (s' & Hrun & Hinv' & Hview).
  destruct (handlePduAsLabel_frame _ _ _ _ _ Hrun) as (_ & Hsn & Hch & Herr & Hcalls).
  exists s'. split; [exact Hrun|]. split; [exact Hinv'|].
  split; [|split].
  - rewrite <- !labelView_lookup, Hview. unfold recordLabel.
    by rewrite lookup_insert_eq.
  - intros id Hne. rewrite <- !labelView_lookup, Hview. unfold recordLabel.
    by rewrite lookup_insert_ne.
  - auto.
Qed.

Lemma tableInv_labelledScope_start : tableInv (newScope labCollector "10.0.0.1").
Proof. apply tableInv_newScope. Qed.

Lemma label_row_writes_one_slot_witness :
  exists s',
    handlePduAsLabel labCollector 1
      (row ".1.3.6.1.2.1.31.1.1.1.18" "9" (octets "uplink"))
      (newScope labCollector "10.0.0.1") = Ok s'
    /\ tableInv s'
    /\ labelsOf s' (getId (Name (row ".1.3.6.1.2.1.31.1.1.1.18" "9" (octets "uplink")))) =
       Some (<[1 := labelValue (row ".1.3.6.1.2.1.31.1.1.1.18" "9" (octets "uplink"))]>
               (default emptyLabels
                  (labelsOf (newScope labCollector "10.0.0.1")
                     (getId (Name (row ".1.3.6.1.2.1.31.1.1.1.18" "9" (octets "uplink")))))))
    /\ (forall id,
          id <> getId (Name (row ".1.3.6.1.2.1.31.1.1.1.18" "9" (octets "uplink"))) ->
          labelsOf s' id = labelsOf (newScope labCollector "10.0.0.1") id)
    /\ ch s' = ch (newScope labCollector "10.0.0.1")
    /\ err s' = err (newScope labCollector "10.0.0.1")
    /\ calls s' = calls (newScope labCollector "10.0.0.1")
    /\ snmp s' = snmp (newScope labCollector "10.0.0.1").
Proof.
  apply (label_row_writes_one_slot labCollector 1
           (row ".1.3.6.1.2.1.31.1.1.1.18" "9" (octets "uplink"))
           (newScope labCollector "10.0.0.1")).
  - exact tableInv_labelledScope_start.
  - unfold numberOfInterfaceLabels. lia.
  - exact I.
Defined.

(** A description alone gives an entry whose name slot is the empty string. *)
Example description_without_name :
  labelsOf (orElse (handlePduAsLabel labCollector 1
                      (row ".1.3.6.1.2.1.31.1.1.1.18" "9" (octets "uplink"))
                      (newScope labCollector "10.0.0.1"))
                   (newScope labCollector "10.0.0.1")) "9"
  = Some [""; "uplink"].
Proof. vm_compute. reflexivity. Qed.

(** X2.  Two label rows commute when they write different slots or different
    row indices: handled in either order they leave the same label values for
    every row index (the arrays may sit at other addresses). *)
Theorem label_rows_commute c i j p q s :
  tableInv s -> i < numberOfInterfaceLabels -> j < numberOfInterfaceLabels ->
  isBytes (Value p) -> isBytes (Value q) ->
  i <> j \/ getId (Name p) <> getId (Name q) ->
  exists s1 s2 s1' s2',
    handlePduAsLabel c i p s = Ok s1 /\ handlePduAsLabel c j q s1 = Ok s2
    /\ handlePduAsLabel c j q s = Ok s1' /\ handlePduAsLabel c i p s1' = Ok s2'
    /\ forall id, labelsOf s2 id = labelsOf s2' id.
Proof.
  intros Hinv Hi Hj Hp Hq Hne.
  destruct (handlePduAsLabel_view c i p s Hinv Hi Hp) as (s1 & H1 & I1 & V1).
  destruct (handlePduAsLabel_view c j q s1 I1 Hj Hq) as (s2 & H2 & I2 & V2).
  destruct (handlePduAsLabel_view c j q s Hinv Hj Hq) as (s1' & H1' & I1' & V1').
  destruct (handlePduAsLabel_view c i p s1' I1' Hi Hp) as (s2' & H2' & I2' & V2').
  exists s1, s2, s1', s2'. repeat (split; [assumption|]).
  intros id. rewrite <- !labelView_lookup, V2, V1, V2', V1'.
  f_equal. apply recordLabel_commute.
  destruct Hne as [H|H]; [left|right]; congruence.
Qed.

Lemma label_rows_commute_witness :
  exists s1 s2 s1' s2',
    handlePduAsLabel labCollector 0
      (row ".1.3.6.1.2.1.31.1.1.1.1" "9" (octets "ge-0/0/0"))
      (newScope labCollector "10.0.0.1") = Ok s1
    /\ handlePduAsLabel labCollector 1
         (row ".1.3.6.1.2.1.31.1.1.1.18" "9" (octets "uplink")) s1 = Ok s2
    /\ handlePduAsLabel labCollector 1
         (row ".1.3.6.1.2.1.31.1.1.1.18" "9" (octets "uplink"))
         (newScope labCollector "10.0.0.1") = Ok s1'
    /\ handlePduAsLabel labCollector 0
         (row ".1.3.6.1.2.1.31.1.1.1.1" "9" (octets "ge-0/0/0")) s1' = Ok s2'
    /\ forall id, labelsOf s2 id = labelsOf s2' id.
Proof.
  apply (label_rows_commute labCollector 0 1
           (row ".1.3.6.1.2.1.31.1.1.1.1" "9" (octets "ge-0/0/0"))
           (row ".1.3.6.1.2.1.31.1.1.1.18" "9" (octets "uplink"))
           (newScope labCollector "10.0.0.1")).
  - exact tableInv_labelledScope_start.
  - unfold numberOfInterfaceLabels. lia.
  - unfold numberOfInterfaceLabels. lia.
  - exact I.
  - exact I.
  - left. lia.
Defined.

(** X3.  A second label row for the same slot of the same row index
    overwrites the first: after both, every row index has the label values it
    would have after the second alone.  Handling a row twice is handling it
    once. *)
Theorem label_row_overwrites_same_slot c i p q s :
  tableInv s -> i < numberOfInterfaceLabels ->
  isBytes (Value p) -> isBytes (Value q) ->
  getId (Name p) = getId (Name q) ->
  exists s1 s2 s',
    handlePduAsLabel c i p s = Ok s1 /\ handlePduAsLabel c i q s1 = Ok s2
    /\ handlePduAsLabel c i q s = Ok s'
    /\ forall id, labelsOf s2 id = labelsOf s' id.
Proof.
  intros Hinv Hi Hp Hq Hid.
  destruct (handlePduAsLabel_view c i p s Hinv Hi Hp) as (s1 & H1 & I1 & V1).
  destruct (handlePduAsLabel_view c i q s1 I1 Hi Hq) as (s2 & H2 & I2 & V2).
  destruct (handlePduAsLabel_view c i q s Hinv Hi Hq) as (s' & H' & I' & V').
  exists s1, s2, s'. repeat (split; [assumption|]).
  intros id. rewrite <- !labelView_lookup, V2, V1, V', Hid.
  f_equal. apply recordLabel_overwrite.
Qed.

Lemma label_row_overwrites_same_slot_witness :
  exists s1 s2 s',
    handlePduAsLabel labCollector 0
      (row ".1.3.6.1.2.1.31.1.1.1.1" "9" (octets "ge-0/0/0"))
      (newScope labCollector "10.0.0.1") = Ok s1
    /\ handlePduAsLabel labCollector 0
         (row ".1.3.6.1.2.1.31.1.1.1.18" "9" (octets "xe-1/0/0")) s1 = Ok s2
    /\ handlePduAsLabel labCollector 0
         (row ".1.3.6.1.2.1.31.1.1.1.18" "9" (octets "xe-1/0/0"))
         (newScope labCollector "10.0.0.1") = Ok s'
    /\ forall id, labelsOf s2 id = labelsOf s' id.
Proof.
  apply (label_row_overwrites_same_slot labCollector 0
           (row ".1.3.6.1.2.1.31.1.1.1.1" "9" (octets "ge-0/0/0"))
           (row ".1.3.6.1.2.1.31.1.1.1.18" "9" (octets "xe-1/0/0"))
           (newScope labCollector "10.0.0.1")).
  - exact tableInv_labelledScope_start.
  - unfold numberOfInterfaceLabels. lia.
  - exact I.
  - exact I.
  - reflexivity.
Defined.

(** ** Label walks *)

Lemma labelCallback_Ok c i p s s' :
  handlePduAsLabel c i p s = Ok s' -> labelCallback c i p s = Ok (None, s').
Proof. intros H. unfold labelCallback. by rewrite H. Qed.

Lemma walkRows_labels c oid i rows final s :
  tableInv s -> i < numberOfInterfaceLabels ->
  Forall (fun p => isBytes (Value p)) rows ->
  exists s1,
    walkRows oid rows final (labelCallback c i) s = Ok (final, s1)
    /\ tableInv s1
    /\ labelView s1 = labelWalkView i rows (labelView s)
    /\ calls s1 = calls s ++ rowCalls oid rows
    /\ ch s1 = ch s /\ err s1 = err s /\ snmp s1 = snmp s.
Proof.
  intros Hinv Hi Hrows. revert s Hinv.
  induction Hrows as [|p rows Hp _ IH]; intros s Hinv.
  - exists s. simpl. rewrite app_nil_r. auto 10.
  - destruct (handlePduAsLabel_view c i p (record (CallRow oid (Name p)) s) Hinv Hi Hp)
      as (s' & Hrun & Hinv' & Hview).
    destruct (handlePduAsLabel_frame _ _ _ _ _ Hrun) as (_ & Hsn & Hch & Herr & Hcalls).
    cbn [walkRows]. rewrite (labelCallback_Ok _ _ _ _ _ Hrun), !bind_Ok_l.
    cbn [fst snd].
    destruct (IH s' Hinv') as (s1 & -> & I1 & V1 & C1 & Ch1 & E1 & S1).
    exists s1. split; [reflexivity|]. split; [exact I1|].
    split; [by rewrite V1, Hview|].
    split; [rewrite C1, Hcalls; simpl; by rewrite <- app_assoc|].
    simpl in *. repeat split; congruence.
Qed.

(** X4.  A label walk over rows that all carry byte strings never stops
    early: every row the transport delivers is handed to the handler, the
    table afterwards is the fold of the slot writes over the rows in order,
    nothing is sent, and the only error the walk can leave as sticky error is
    the transport's own, and only if none was recorded before. *)
Theorem label_walk_records_every_row net c oid i s :
  tableInv s -> i < numberOfInterfaceLabels ->
  Forall (fun p => isBytes (Value p)) (fst (tables (net (Target (snmp s))) oid)) ->
  exists s',
    fetchInterfaceLabelFromOid net c oid i s = Ok s'
    /\ tableInv s'
    /\ labelView s' =
       labelWalkView i (fst (tables (net (Target (snmp s))) oid)) (labelView s)
    /\ delivered oid (calls s') =
       delivered oid (calls s) ++ map Name (fst (tables (net (Target (snmp s))) oid))
    /\ ch s' = ch s
    /\ err s' = match err s with
                | Some e => Some e
                | None => snd (tables (net (Target (snmp s))) oid)
                end.
Proof.
  intros Hinv Hi Hrows.
  destruct (walkRows_labels c oid i _ (snd (tables (net (Target (snmp s))) oid))
              (record (CallWalk oid) s) Hinv Hi Hrows)
    as (s1 & Hrun & I1 & V1 & C1 & Ch1 & E1 & S1).
  unfold fetchInterfaceLabelFromOid, Walk.
  change (fun pdu s0 => s'0 ← handlePduAsLabel c i pdu s0; Ok (None, s'0))
    with (labelCallback c i).
  rewrite Hrun. rewrite !bind_Ok_l. cbn [fst snd].
  eexists. split; [reflexivity|].
  match goal with |- context [keepFirst ?e ?x] =>
    destruct (keepFirst_fields e x) as (Hl & _ & Hch & Harr & Hcalls) end.
  split; [|split; [|split; [|split]]].
  - destruct I1 as [F1 Sep1]. split.
    + intros id sl H. rewrite Hl in H. rewrite Harr. exact (F1 id sl H).
    + intros id1 id2 sl1 sl2 H1 H2. rewrite Hl in H1, H2. exact (Sep1 _ _ _ _ H1 H2).
  - unfold labelView. rewrite Hl, Harr. exact V1.
  - rewrite Hcalls. simpl. rewrite C1. simpl.
    rewrite !delivered_app, delivered_rowCalls. simpl. by rewrite !app_nil_r.
  - rewrite Hch. exact Ch1.
  - rewrite keepFirst_err. simpl. rewrite E1. reflexivity.
Qed.

Lemma label_walk_records_every_row_witness :
  exists s',
    fetchInterfaceLabelFromOid lab labCollector ".1.3.6.1.2.1.31.1.1.1.1" 0
      (newScope labCollector "10.0.0.4") = Ok s'
    /\ tableInv s'
    /\ labelView s' =
       labelWalkView 0
         (fst (tables (lab (Target (snmp (newScope labCollector "10.0.0.4"))))
                 ".1.3.6.1.2.1.31.1.1.1.1"))
         (labelView (newScope labCollector "10.0.0.4"))
    /\ delivered ".1.3.6.1.2.1.31.1.1.1.1" (calls s') =
       delivered ".1.3.6.1.2.1.31.1.1.1.1" (calls (newScope labCollector "10.0.0.4"))
       ++ map Name
            (fst (tables (lab (Target (snmp (newScope labCollector "10.0.0.4"))))
                    ".1.3.6.1.2.1.31.1.1.1.1"))
    /\ ch s' = ch (newScope labCollector "10.0.0.4")
    /\ err s' = match err (newScope labCollector "10.0.0.4") with
                | Some e => Some e
                | None =>
                    snd (tables (lab (Target (snmp (newScope labCollector "10.0.0.4"))))
                           ".1.3.6.1.2.1.31.1.1.1.1")
                end.
Proof.
  apply (label_walk_records_every_row lab labCollector ".1.3.6.1.2.1.31.1.1.1.1" 0
           (newScope labCollector "10.0.0.4")).
  - apply tableInv_newScope.
  - unfold numberOfInterfaceLabels. lia.
  - repeat constructor.
Defined.

(** ** Counter rows and counter walks *)

(** X5.  A counter row whose value is a [uint] and whose row index has a
    label entry: the handler returns no error and sends exactly one gauge
    metric, of the descriptor of the walk, with the converted value and, as
    label values, the two stored labels followed by the target; the table,
    the sticky error and the history are untouched. *)
Theorem labelled_counter_row_emits_one_metric c d conv p v ls s :
  labelsFull s -> d ∈ interfaceDescs -> Value p = VUint v ->
  labelsOf s (getId (Name p)) = Some ls ->
  exists r,
    handlePduAsMetric c d p conv s = Ok r
    /\ fst r = None
    /\ ch (snd r) =
       ch s ++ [Some (ConstMetric d GaugeValue (conv v) (ls ++ [Target (snmp s)]))]
    /\ length ls = numberOfInterfaceLabels
    /\ interfaceLabels (snd r) = interfaceLabels s
    /\ err (snd r) = err s /\ calls (snd r) = calls s.
Proof.
  intros Hf Hd Hv Hls.
  assert (labelledRow s p) as Hrow.
  { split; [by rewrite Hv|]. unfold labelsOf in Hls.
    destruct (interfaceLabels s !! getId (Name p)); [eauto | discriminate]. }
  destruct (labelledRow_metric c d conv s s p Hf (tableKept_refl s) eq_refl Hd Hrow)
    as (arr & Hrun).
  eexists. split; [exact Hrun|]. simpl.
  unfold rowMetric, rowLabels. rewrite Hv, Hls. simpl.
  repeat split; try reflexivity.
  unfold labelsOf in Hls.
  destruct (interfaceLabels s !! getId (Name p)) as [sl|] eqn:Hl; [|discriminate].
  injection Hls as <-. destruct (Hf _ _ Hl) as (Hlen & _ & _ & Harr).
  unfold elems. rewrite length_take. lia.
Qed.

Lemma labelled_counter_row_emits_one_metric_witness :
  exists r,
    handlePduAsMetric labCollector receiveBytesDesc
      (row ".1.3.6.1.2.1.2.2.1.10" "9" (VUint 8000)) bitsToBytes labelledScope = Ok r
    /\ fst r = None
    /\ ch (snd r) =
       ch labelledScope
       ++ [Some (ConstMetric receiveBytesDesc GaugeValue (bitsToBytes 8000%Z)
                   (["ge-0/0/0"; ""] ++ [Target (snmp labelledScope)]))]
    /\ length ["ge-0/0/0"; ""] = numberOfInterfaceLabels
    /\ interfaceLabels (snd r) = interfaceLabels labelledScope
    /\ err (snd r) = err labelledScope /\ calls (snd r) = calls labelledScope.
Proof.
  apply (labelled_counter_row_emits_one_metric labCollector receiveBytesDesc
           bitsToBytes (row ".1.3.6.1.2.1.2.2.1.10" "9" (VUint 8000)) 8000
           ["ge-0/0/0"; ""] labelledScope).
  - exact labelsFull_labelledScope.
  - unfold interfaceDescs. left.
  - reflexivity.
  - vm_compute. reflexivity.
Defined.

Lemma fetchInterfaceMetricFromOid_labelled net c oid d conv s0 s :
  labelsFull s0 -> tableKept s0 s -> snmp s = snmp s0 -> d ∈ interfaceDescs ->
  Forall (labelledRow s0) (fst (tables (net (Target (snmp s0))) oid)) ->
  exists s',
    fetchInterfaceMetricFromOid net c oid d conv s = Ok s'
    /\ tableKept s0 s' /\ snmp s' = snmp s0
    /\ ch s' = ch s
               ++ map (rowMetric d conv s0) (fst (tables (net (Target (snmp s0))) oid))
    /\ err s' = match err s with
                | Some e => Some e
                | None => snd (tables (net (Target (snmp s0))) oid)
                end
    /\ calls s' = calls s ++ CallWalk oid
         :: rowCalls oid (fst (tables (net (Target (snmp s0))) oid))
         ++ [CallReturn oid (snd (tables (net (Target (snmp s0))) oid))].
Proof.
  intros Hf Hk Hsn Hd Hrows.
  unfold fetchInterfaceMetricFromOid, Walk. rewrite Hsn.
  destruct (walkRows_labelled c oid d conv s0 _
              (snd (tables (net (Target (snmp s0))) oid))
              (record (CallWalk oid) s) Hf Hd Hrows Hk Hsn)
    as (s1 & -> & Hk1 & Hsn1 & He1 & Hc1 & Hcalls1).
  rewrite !bind_Ok_l. cbn [fst snd]. eexists. split; [reflexivity|].
  match goal with |- context [keepFirst ?e ?x] =>
    destruct (keepFirst_fields e x) as (Hl & Hs & Hch & Harr & Hcalls) end.
  split; [|split; [|split; [|split]]].
  - destruct Hk1 as [K1 K2]. split; [by rewrite Hl | by rewrite Harr].
  - rewrite Hs. exact Hsn1.
  - rewrite Hch. exact Hc1.
  - rewrite keepFirst_err. simpl. rewrite He1. reflexivity.
  - rewrite Hcalls. simpl. rewrite Hcalls1. simpl.
    by rewrite <- !app_assoc.
Qed.

(** X6.  A counter walk over rows that are all [uint] values with a label
    entry never stops early: it sends one metric per row, in the order of the
    rows, each with the walk's descriptor, the converted value and the labels
    of its row index followed by the target; the label table is as before;
    and the sticky error is the one already recorded or else the transport's
    result for the walk. *)
Theorem counter_walk_emits_one_metric_per_row net c oid d conv s :
  labelsFull s -> d ∈ interfaceDescs ->
  Forall (labelledRow s) (fst (tables (net (Target (snmp s))) oid)) ->
  exists s',
    fetchInterfaceMetricFromOid net c oid d conv s = Ok s'
    /\ ch s' = ch s
               ++ map (rowMetric d conv s) (fst (tables (net (Target (snmp s))) oid))
    /\ delivered oid (calls s') =
       delivered oid (calls s) ++ map Name (fst (tables (net (Target (snmp s))) oid))
    /\ (forall id, labelsOf s' id = labelsOf s id)
    /\ err s' = match err s with
                | Some e => Some e
                | None => snd (tables (net (Target (snmp s))) oid)
                end.
Proof.
  intros Hf Hd Hrows.
  destruct (fetchInterfaceMetricFromOid_labelled net c oid d conv s s Hf
              (tableKept_refl s) eq_refl Hd Hrows)
    as (s' & Hrun & Hk & _ & Hch & He & Hcalls).
  exists s'. split; [exact Hrun|]. split; [exact Hch|].
  split; [|split; [|exact He]].
  - rewrite Hcalls, delivered_app. simpl.
    rewrite delivered_app, delivered_rowCalls. simpl. by rewrite app_nil_r.
  - intros id. by apply tableKept_labelsOf.
Qed.

Lemma counter_walk_emits_one_metric_per_row_witness :
  exists s',
    fetchInterfaceMetricFromOid lab labCollector ".1.3.6.1.2.1.2.2.1.16"
      transmitBytesDesc bitsToBytes sparseLabelled = Ok s'
    /\ ch s' = ch sparseLabelled
               ++ map (rowMetric transmitBytesDesc bitsToBytes sparseLabelled)
                    (fst (tables (lab (Target (snmp sparseLabelled)))
                            ".1.3.6.1.2.1.2.2.1.16"))
    /\ delivered ".1.3.6.1.2.1.2.2.1.16" (calls s') =
       delivered ".1.3.6.1.2.1.2.2.1.16" (calls sparseLabelled)
       ++ map Name (fst (tables (lab (Target (snmp sparseLabelled)))
                           ".1.3.6.1.2.1.2.2.1.16"))
    /\ (forall id, labelsOf s' id = labelsOf sparseLabelled id)
    /\ err s' = match err sparseLabelled with
                | Some e => Some e
                | None => snd (tables (lab (Target (snmp sparseLabelled)))
                                 ".1.3.6.1.2.1.2.2.1.16")
                end.
Proof.
  apply (counter_walk_emits_one_metric_per_row lab labCollector
           ".1.3.6.1.2.1.2.2.1.16" transmitBytesDesc bitsToBytes sparseLabelled).
  - exact labelsFull_sparseLabelled.
  - unfold interfaceDescs. right. left.
  - constructor; [|constructor]. split; [exact I|].
    vm_compute. eexists. reflexivity.
Defined.

(** ** A whole run on a device whose counter rows all have labels *)

Lemma afterLabels_ch net c t s : afterLabels net c t = Ok s -> ch s = [].
Proof.
  unfold afterLabels. intros H. inv_bind H.
  assert (stable (fun s => ch s = [])) as Hst by (intros x Hx; auto).
  assert (forall oid i x y, ch x = [] ->
            fetchInterfaceLabelFromOid net c oid i x = Ok y -> ch y = []) as HL.
  { intros oid i x y Hx Hxy.
    eapply (fetchInterfaceLabelFromOid_inv net c (fun s => ch s = []));
      [exact Hst| |exact Hx|exact Hxy].
    intros p x' y' Hx' Hxy'.
    destruct (handlePduAsLabel_frame _ _ _ _ _ Hxy') as (_ & _ & -> & _).
    exact Hx'. }
  eapply HL; [|exact H]. eapply HL; [|exact Ha]. reflexivity.
Qed.

(** X7.  Let session setup succeed and let every row of the six counter
    tables be a [uint] whose row index has a label entry after the two label
    walks.  Then the goroutine returns, and what it sends is, table after
    table in the order receive bytes, transmit bytes, receive drops, receive
    errors, transmit drops, transmit errors, one metric per row in the order
    of the rows, and then the reachability metric; a transport error at the
    end of a walk loses no metric, it only turns the reachability value
    to 0. *)
Theorem labelled_device_run net c t sL :
  connectResult (net t) = None ->
  afterLabels net c t = Ok sL ->
  (forall oid, oid ∈ counterOids -> Forall (labelledRow sL) (fst (tables (net t) oid))) ->
  exists s,
    collectForTarget net c t = Ok s
    /\ ch s =
       concat (map (fun b : string * Desc * ValueConverter =>
                      map (rowMetric (snd (fst b)) (snd b) sL)
                          (fst (tables (net t) (fst (fst b)))))
                   specCounterBindings)
       ++ [upOf t (upValue s)]
    /\ (forall id, labelsOf s id = labelsOf sL id).
Proof.
  intros Hc HL Hrows.
  pose proof (afterLabels_engineInv net c t sL HL) as (Hf & Ht & _).
  pose proof (afterLabels_ch net c t sL HL) as Hch.
  unfold collectForTarget, collectMetrics.
  change (fst (Connect net (newScope c t))) with (connectResult (net t)).
  change (Conn (snmp (snd (Connect net (newScope c t)))))
    with (bool_decide (connectResult (net t) = None)).
  rewrite Hc, bool_decide_true by reflexivity.
  unfold afterLabels in HL. inv_bind HL. rewrite Ha, bind_Ok_l, HL, bind_Ok_l.
  assert (forall oid d conv s, oid ∈ counterOids -> d ∈ interfaceDescs ->
            tableKept sL s -> snmp s = snmp sL ->
            exists s', fetchInterfaceMetricFromOid net c oid d conv s = Ok s'
                       /\ tableKept sL s' /\ snmp s' = snmp sL
                       /\ ch s' = ch s ++ map (rowMetric d conv sL) (fst (tables (net t) oid)))
    as Hstep.
  { intros oid d conv s Ho Hd Hk Hsn.
    destruct (fetchInterfaceMetricFromOid_labelled net c oid d conv sL s Hf Hk Hsn Hd)
      as (s' & Hrun & Hk' & Hsn' & Hch' & _).
    - rewrite Ht. by apply Hrows.
    - exists s'. rewrite Ht in Hch'. auto. }
  destruct (Hstep ".1.3.6.1.2.1.2.2.1.10" receiveBytesDesc bitsToBytes sL)
    as (s3 & -> & K3 & S3 & C3); [solve [repeat constructor]|solve [repeat constructor]|apply tableKept_refl|reflexivity|].
  rewrite bind_Ok_l.
  destruct (Hstep ".1.3.6.1.2.1.2.2.1.16" transmitBytesDesc bitsToBytes s3)
    as (s4 & -> & K4 & S4 & C4); [solve [repeat constructor]|solve [repeat constructor]|exact K3|exact S3|].
  rewrite bind_Ok_l.
  destruct (Hstep ".1.3.6.1.2.1.2.2.1.13" receiveDropsDesc noConvert s4)
    as (s5 & -> & K5 & S5 & C5); [solve [repeat constructor]|solve [repeat constructor]|exact K4|exact S4|].
  rewrite bind_Ok_l.
  destruct (Hstep ".1.3.6.1.2.1.2.2.1.14" receiveErrorsDesc noConvert s5)
    as (s6 & -> & K6 & S6 & C6); [solve [repeat constructor]|solve [repeat constructor]|exact K5|exact S5|].
  rewrite bind_Ok_l.
  destruct (Hstep ".1.3.6.1.2.1.2.2.1.19" transmitDropsDesc noConvert s6)
    as (s7 & -> & K7 & S7 & C7); [solve [repeat constructor]|solve [repeat constructor]|exact K6|exact S6|].
  rewrite bind_Ok_l.
  destruct (Hstep ".1.3.6.1.2.1.2.2.1.20" transmitErrorsDesc noConvert s7)
    as (s8 & -> & K8 & S8 & C8); [solve [repeat constructor]|solve [repeat constructor]|exact K7|exact S7|].
  rewrite bind_Ok_l.
  assert (ch s8 =
          concat (map (fun b : string * Desc * ValueConverter =>
                         map (rowMetric (snd (fst b)) (snd b) sL)
                             (fst (tables (net t) (fst (fst b)))))
                      specCounterBindings)) as Hall.
  { rewrite C8, C7, C6, C5, C4, C3, Hch. simpl.
    rewrite app_nil_r, <- !app_assoc. reflexivity. }
  assert (Target (snmp s8) = t) as Ht8 by (by rewrite S8).
  exists (send (upOf t (upValue (Close s8))) (Close s8)).
  split; [|split].
  - unfold upValue, upMetric, upOf. simpl. rewrite Ht8.
    destruct (err s8); reflexivity.
  - simpl. rewrite Hall. reflexivity.
  - intros id. exact (tableKept_labelsOf sL s8 id Hf K8).
Qed.

Lemma labelled_device_run_witness :
  exists s,
    collectForTarget lab labCollector "10.0.0.1" = Ok s
    /\ ch s =
       concat (map (fun b : string * Desc * ValueConverter =>
                      map (rowMetric (snd (fst b)) (snd b) uplinkLabelled)
                          (fst (tables (lab "10.0.0.1") (fst (fst b)))))
                   specCounterBindings)
       ++ [upOf "10.0.0.1" (upValue s)]
    /\ (forall id, labelsOf s id = labelsOf uplinkLabelled id).
Proof.
  apply (labelled_device_run lab labCollector "10.0.0.1" uplinkLabelled).
  - reflexivity.
  - vm_compute. reflexivity.
  - intros oid Ho. unfold counterOids in Ho.
    rewrite !elem_of_cons, elem_of_nil in Ho.
    destruct Ho as [->|[->|[->|[->|[->|[->|[]]]]]]]; simpl.
    + constructor; [|constructor]. split; [exact I|].
      vm_compute. eexists. reflexivity.
    + constructor.
    + constructor.
    + constructor.
    + constructor.
    + constructor.
Defined.

(** ** What a goroutine reports *)

(** X8.  A goroutine that returns reports its target as reachable exactly
    when session setup and every walk answered without error: the last thing
    it sends is the reachability metric, with value 1 if the history holds no
    failure and 0 as soon as it holds one. *)
Theorem up_iff_no_failure net c t s :
  collectForTarget net c t = Ok s ->
  exists ms v,
    ch s = ms ++ [upOf t v]
    /\ (v = 1%Z \/ v = 0%Z)
    /\ (v = 1%Z <-> failures (calls s) = []).
Proof.
  intros H.
  destruct (collectForTarget_ch net c t s H) as (ms & Hch & _).
  destruct (collectForTarget_history net c t s H) as [Hfw _].
  exists ms, (upValue s). split; [exact Hch|].
  unfold firstWins in Hfw. unfold upValue. rewrite Hfw.
  destruct (failures (calls s)) as [|e es]; simpl.
  - split; [by left|]. split; auto.
  - split; [by right|]. split; [lia | discriminate].
Qed.

Lemma up_iff_no_failure_witness :
  exists ms v,
    ch sparseRun = ms ++ [upOf "10.0.0.4" v]
    /\ (v = 1%Z \/ v = 0%Z)
    /\ (v = 1%Z <-> failures (calls sparseRun) = []).
Proof.
  apply (up_iff_no_failure lab labCollector "10.0.0.4" sparseRun).
  vm_compute. reflexivity.
Defined.

Lemma collectMetrics_inv net c (I : scope -> Prop) s s' :
  stable I ->
  (forall i p x y, I x -> handlePduAsLabel c i p x = Ok y -> I y) ->
  (forall d conv p x r, I x -> handlePduAsMetric c d p conv x = Ok r -> I (snd r)) ->
  I s -> collectMetrics net c s = Ok s' -> I s'.
Proof.
  intros Hst HL HM Hs H.
  assert (I (snd (Connect net s))) as H0.
  { unfold Connect. simpl. apply stable_record; [exact Hst|].
    by apply stable_Conn. }
  assert (forall oid i a b, I a ->
            fetchInterfaceLabelFromOid net c oid i a = Ok b -> I b) as FL.
  { intros oid i a b Ha Hab.
    eapply (fetchInterfaceLabelFromOid_inv net c I); [exact Hst| |exact Ha|exact Hab].
    intros p x y. apply HL. }
  assert (forall oid d conv a b, I a ->
            fetchInterfaceMetricFromOid net c oid d conv a = Ok b -> I b) as FM.
  { intros oid d conv a b Ha Hab.
    eapply (fetchInterfaceMetricFromOid_inv net c I); [exact Hst| |exact Ha|exact Hab].
    intros p x r. apply HM. }
  apply collectMetrics_Ok in H as [(e & _ & _ & ->) | (_ & s1 & s2 & s3 & s4 & s5 & s6 & s7
      & s8 & H1 & H2 & H3 & H4 & H5 & H6 & H7 & H8 & ->)].
  - by apply stable_err.
  - unfold Close. apply stable_record; [exact Hst|]. apply stable_Conn; [exact Hst|].
    apply (FM _ _ _ _ _ (FM _ _ _ _ _ (FM _ _ _ _ _ (FM _ _ _ _ _ (FM _ _ _ _ _
             (FM _ _ _ _ _ (FL _ _ _ _ (FL _ _ _ _ H0 H1) H2) H3) H4) H5) H6) H7) H8).
Qed.

Lemma handlePduAsMetric_sent c d p conv s r :
  handlePduAsMetric c d p conv s = Ok r ->
  ch (snd r) = ch s
  \/ exists m, ch (snd r) = ch s ++ [Some m] /\ wellFormed (Some m) /\ desc m = d.
Proof.
  unfold handlePduAsMetric. intros H.
  destruct (Value p); try discriminate.
  match type of H with context [NewConstMetric ?a ?b ?x ?e] =>
    destruct (NewConstMetric a b x e) as [m|e'] eqn:Hm end;
    injection H as <-; simpl; [|by left].
  right. exists m. split; [reflexivity|].
  unfold NewConstMetric in Hm. case_decide as Hlen; [|discriminate].
  injection Hm as <-. split; [|reflexivity].
  eexists. split; [reflexivity|]. simpl. auto.
Qed.

Lemma wellFormed_upOf t v : wellFormed (upOf t v).
Proof. eexists. split; [reflexivity|]. split; reflexivity. Qed.

Lemma collectForTarget_wellFormed net c t s :
  collectForTarget net c t = Ok s -> Forall wellFormed (ch s).
Proof.
  intros H. apply collectForTarget_Ok in H as (s0 & H0 & _ & ->).
  simpl. apply Forall_app. split; [|constructor; [apply wellFormed_upOf|constructor]].
  eapply (collectMetrics_inv net c (fun s => Forall wellFormed (ch s)));
    [| | | |exact H0].
  - intros x Hx. auto.
  - intros i p x y Hx Hxy.
    destruct (handlePduAsLabel_frame _ _ _ _ _ Hxy) as (_ & _ & -> & _). exact Hx.
  - intros d conv p x r Hx Hr.
    destruct (handlePduAsMetric_sent _ _ _ _ _ _ Hr) as [->|(m & -> & Hm & _)];
      [exact Hx|].
    apply Forall_app. split; [exact Hx|]. by constructor.
  - constructor.
Qed.

(** X9.  Whatever the device answers, every value a returning goroutine puts
    on the channel is a non-nil gauge metric with exactly as many label values
    as its descriptor has label names (one for the reachability metric, three
    for an interface metric); so is everything in the sink of a [Collect] that
    returns. *)
Theorem every_sent_metric_is_well_formed net c t s :
  collectForTarget net c t = Ok s ->
  Forall wellFormed (ch s)
  /\ (forall m, Some m ∈ ch s ->
        desc m = upDesc /\ length (labelValues m) = 1
        \/ desc m ∈ interfaceDescs /\ length (labelValues m) = 3)
  /\ (forall sink, Collect net c sink -> Forall wellFormed sink).
Proof.
  intros H. split; [by eapply collectForTarget_wellFormed|]. split.
  - intros m Hm.
    pose proof (collectForTarget_wellFormed net c t s H) as Hwf.
    rewrite Forall_forall in Hwf.
    destruct (Hwf _ Hm) as (m' & [= <-] & _ & Hlen).
    destruct (collectForTarget_ch net c t s H) as (ms & Hch & Hms).
    rewrite Hch, elem_of_app in Hm. destruct Hm as [Hm|Hm].
    + right. rewrite Forall_forall in Hms.
      destruct (Hms _ Hm) as (m' & [= <-] & Hd & _). split; [exact Hd|].
      rewrite Hlen. revert Hd. unfold interfaceDescs.
      rewrite !elem_of_cons, elem_of_nil.
      intros [->|[->|[->|[->|[->|[->|[]]]]]]]; reflexivity.
    + left. apply list_elem_of_singleton in Hm. injection Hm as ->.
      split; reflexivity.
  - intros sink HC. apply Forall_forall. intros m Hm.
    destruct (Collect_elem net c sink m HC Hm) as (t' & s' & _ & Hs' & Hms').
    pose proof (collectForTarget_wellFormed net c t' s' Hs') as Hwf.
    rewrite Forall_forall in Hwf. by apply Hwf.
Qed.

Lemma every_sent_metric_is_well_formed_witness :
  Forall wellFormed (ch sparseRun)
  /\ (forall m, Some m ∈ ch sparseRun ->
        desc m = upDesc /\ length (labelValues m) = 1
        \/ desc m ∈ interfaceDescs /\ length (labelValues m) = 3)
  /\ (forall sink, Collect lab labCollector sink -> Forall wellFormed sink).
Proof.
  apply (every_sent_metric_is_well_formed lab labCollector "10.0.0.4" sparseRun).
  vm_compute. reflexivity.
Defined.

(** ** The session *)

Lemma sessionCalls_app cs cs' : sessionCalls (cs ++ cs') = sessionCalls cs ++ sessionCalls cs'.
Proof. apply omap_app. Qed.

Lemma sessionCalls_rowCalls oid ps : sessionCalls (rowCalls oid ps) = [].
Proof. induction ps; [reflexivity | exact IHps]. Qed.

Lemma walkStep_session net oid s s' :
  walkStep net oid s s' ->
  sessionCalls (calls s') = sessionCalls (calls s)
  /\ snmp s' = snmp s
  /\ head (calls s') = head (calls s ++ [CallWalk oid]).
Proof.
  intros (k & r & Hc & _ & Hs). rewrite Hc. split; [|split; [exact Hs|]].
  - rewrite sessionCalls_app. simpl.
    rewrite sessionCalls_app, sessionCalls_rowCalls. simpl. by rewrite app_nil_r.
  - destruct (calls s); reflexivity.
Qed.

(** X10.  A goroutine whose session setup succeeded and that returns has
    opened the session once, before anything else, and closed it once, after
    the last walk; the session it leaves is closed and still configured as it
    was created: the target, the collector's community, port 161, the
    2-second timeout and version 1. *)
Theorem session_opened_first_closed_last net c t s :
  collectForTarget net c t = Ok s -> connectResult (net t) = None ->
  sessionCalls (calls s) = [CallConnect None; CallClose]
  /\ head (calls s) = Some (CallConnect None)
  /\ last (calls s) = Some CallClose
  /\ snmp s = {| Target := t; Community := community c; Port := 161;
                 Timeout := 2; Version := 1; Conn := false |}.
Proof.
  intros H Hc. apply collectForTarget_Ok in H as (s0 & H0 & _ & ->).
  apply collectMetrics_Ok in H0 as [(e & Hc' & _) | (_ & s1 & s2 & s3 & s4 & s5 & s6 & s7
      & s8 & H1 & H2 & H3 & H4 & H5 & H6 & H7 & H8 & ->)]; [simpl in Hc'; congruence|].
  apply fetchInterfaceLabelFromOid_step, walkStep_session in H1, H2.
  apply fetchInterfaceMetricFromOid_step, walkStep_session in H3, H4, H5, H6, H7, H8.
  destruct H1 as (A1 & B1 & C1), H2 as (A2 & B2 & C2), H3 as (A3 & B3 & C3),
    H4 as (A4 & B4 & C4), H5 as (A5 & B5 & C5), H6 as (A6 & B6 & C6),
    H7 as (A7 & B7 & C7), H8 as (A8 & B8 & C8).
  simpl. rewrite sessionCalls_app, last_snoc.
  rewrite A8, A7, A6, A5, A4, A3, A2, A1, B8, B7, B6, B5, B4, B3, B2, B1.
  simpl. rewrite Hc. simpl.
  split; [reflexivity|]. split; [|split; reflexivity].
  assert (forall (l : list call) x y, head l = Some x -> head (l ++ [y]) = Some x) as Hh.
  { intros [|a l] x y; simpl; [discriminate | auto]. }
  apply Hh. rewrite C8. apply Hh. rewrite C7. apply Hh. rewrite C6. apply Hh.
  rewrite C5. apply Hh. rewrite C4. apply Hh. rewrite C3. apply Hh. rewrite C2.
  apply Hh. rewrite C1. apply Hh. simpl. by rewrite Hc.
Qed.

Lemma session_opened_first_closed_last_witness :
  sessionCalls (calls sparseRun) = [CallConnect None; CallClose]
  /\ head (calls sparseRun) = Some (CallConnect None)
  /\ last (calls sparseRun) = Some CallClose
  /\ snmp sparseRun = {| Target := "10.0.0.4"; Community := community labCollector;
                         Port := 161; Timeout := 2; Version := 1; Conn := false |}.
Proof.
  apply (session_opened_first_closed_last lab labCollector "10.0.0.4" sparseRun).
  - vm_compute. reflexivity.
  - reflexivity.
Defined.

(** ** The shared channel *)

Lemma interleaving_filter {A} (P : A -> Prop) `{!forall x, Decision (P x)}
    (ls : list (list A)) (out : list A) :
  interleaving ls out -> interleaving (map (filter P) ls) (filter P out).
Proof.
  induction 1 as [ls Hnil | pre post x xs out _ IH].
  - constructor. apply Forall_map. eapply Forall_impl; [exact Hnil|].
    intros l ->. reflexivity.
  - rewrite map_app in *. simpl in *.
    destruct (decide (P x)) as [Hx|Hx].
    + rewrite !filter_cons_True by exact Hx.
      by apply interleaving_send.
    + rewrite !filter_cons_False by exact Hx. exact IH.
Qed.

Lemma nil_around_unique {A} (pre' post' pre post : list (list A)) (a l : list A) :
  Forall (fun x => x = []) pre -> Forall (fun x => x = []) post ->
  pre' ++ a :: post' = pre ++ l :: post -> a <> [] ->
  pre' = pre /\ a = l /\ post' = post.
Proof.
  intros Hpre Hpost. revert pre Hpre.
  induction pre' as [|b pre' IH]; intros pre Hpre Heq Ha.
  - destruct pre as [|p pre]; simpl in Heq.
    + injection Heq as -> ->. auto.
    + injection Heq as -> _. inversion Hpre; subst. congruence.
  - destruct pre as [|p pre]; simpl in Heq.
    + injection Heq as -> Hrest. exfalso. apply Ha.
      rewrite Forall_forall in Hpost. apply Hpost. rewrite <- Hrest.
      apply elem_of_app. right. left.
    + injection Heq as -> Hrest. inversion Hpre; subst.
      destruct (IH pre) as (-> & -> & ->); auto.
Qed.

(** When all the lists but one are empty, the merge is that list. *)
Lemma interleaving_single {A} (ls : list (list A)) (out : list A) :
  interleaving ls out ->
  forall pre l post, ls = pre ++ l :: post ->
    Forall (fun x => x = []) pre -> Forall (fun x => x = []) post -> out = l.
Proof.
  induction 1 as [ls Hnil | pre' post' x xs out _ IH]; intros pre l post Heq Hpre Hpost.
  - rewrite Forall_forall in Hnil. symmetry. apply Hnil. rewrite Heq.
    apply elem_of_app. right. left.
  - destruct (nil_around_unique pre' post' pre post (x :: xs) l Hpre Hpost Heq)
      as (-> & <- & ->); [discriminate|].
    f_equal. by apply (IH pre xs post).
Qed.

Lemma collectForTarget_sentFor net c t t' s :
  collectForTarget net c t' = Ok s ->
  filter (sentFor t) (ch s) = if decide (t = t') then ch s else [].
Proof.
  intros H. destruct (collectForTarget_ch net c t' s H) as (ms & -> & Hms).
  assert (Forall (fun m => sentFor t' m) (ms ++ [upOf t' (upValue s)])) as Hall.
  { apply Forall_app. split; [|constructor; [reflexivity|constructor]].
    eapply Forall_impl; [exact Hms|].
    intros m (m' & -> & _ & ls & Hls). simpl. rewrite Hls. apply last_snoc. }
  revert Hall. generalize (ms ++ [upOf t' (upValue s)]) as l. intros l Hall.
  destruct (decide (t = t')) as [->|Hne].
  - induction Hall as [|m l Hm _ IH]; [reflexivity|].
    rewrite filter_cons_True by exact Hm. by rewrite IH.
  - induction Hall as [|m l Hm _ IH]; [reflexivity|].
    rewrite filter_cons_False; [exact IH|].
    destruct m as [m|]; simpl in *; [|tauto]. congruence.
Qed.

Lemma Forall2_sentFor_absent net c t ts scopes :
  Forall2 (fun t s => collectForTarget net c t = Ok s) ts scopes ->
  t ∉ ts ->
  Forall (fun x => x = []) (map (filter (sentFor t)) (map ch scopes)).
Proof.
  induction 1 as [|t' s ts scopes Hs _ IH]; intros Hnot; [constructor|].
  simpl. constructor.
  - rewrite (collectForTarget_sentFor net c t t' s Hs).
    rewrite decide_False; [reflexivity|]. intros ->. apply Hnot. left.
  - apply IH. intros Hin. apply Hnot. by right.
Qed.

(** X11.  With pairwise distinct targets, the metrics of one target can be
    read back from the shared sink whatever the interleaving: the values whose
    last label is that target are exactly what its goroutine sent, in the
    order it sent them.  No goroutine's metrics are lost, duplicated,
    reordered or labelled with another target. *)
Theorem sink_keeps_each_target_in_order net c sink t s :
  NoDup (targets c) -> Collect net c sink -> t ∈ targets c ->
  collectForTarget net c t = Ok s ->
  filter (sentFor t) sink = ch s.
Proof.
  intros Hnd (scopes & Hs & Hi) Ht Hrun.
  apply (interleaving_filter (sentFor t)) in Hi.
  revert Hnd Ht Hs Hi. generalize (targets c) as ts. intros ts Hnd Ht Hs.
  assert (exists pre post,
            map (filter (sentFor t)) (map ch scopes) = pre ++ ch s :: post
            /\ Forall (fun x => x = []) pre /\ Forall (fun x => x = []) post)
    as (pre & post & Heq & Hpre & Hpost).
  { induction Hs as [|t' s' ts scopes Hs' Hrest IH].
    - by apply elem_of_nil in Ht.
    - apply NoDup_cons in Hnd as [Hnot Hnd'].
      simpl. rewrite (collectForTarget_sentFor net c t t' s' Hs').
      destruct (decide (t = t')) as [<-|Hne].
      + exists [], (map (filter (sentFor t)) (map ch scopes)).
        assert (s' = s) as -> by congruence.
        split; [reflexivity|]. split; [constructor|].
        by eapply Forall2_sentFor_absent.
      + apply elem_of_cons in Ht as [?|Ht]; [congruence|].
        destruct (IH Hnd' Ht) as (pre & post & -> & Hpre & Hpost).
        exists ([] :: pre), post. split; [reflexivity|].
        split; [by constructor | exact Hpost]. }
  intros Hi. eapply interleaving_single; eassumption.
Qed.

Lemma Collect_pairSink : Collect lab pairCollector pairSink.
Proof.
  exists [uplinkRun; deadRun]. split.
  - constructor; [vm_compute; reflexivity|].
    constructor; [vm_compute; reflexivity|constructor].
  - vm_compute.
    refine (interleaving_send [_] [] _ [] _ _).
    refine (interleaving_send [] [_] _ _ _ _).
    refine (interleaving_send [] [_] _ _ _ _).
    constructor. repeat constructor.
Qed.

Lemma sink_keeps_each_target_in_order_witness :
  filter (sentFor "10.0.0.1") pairSink = ch uplinkRun.
Proof.
  apply (sink_keeps_each_target_in_order lab pairCollector pairSink "10.0.0.1" uplinkRun).
  - apply (bool_decide_unpack _). by vm_compute.
  - exact Collect_pairSink.
  - left.
  - vm_compute. reflexivity.
Defined.

(** ** Splitting a row identifier *)

Lemma Join_cons_head a t ts sep :
  Join (String a t :: ts) sep = String a (Join (t :: ts) sep).
Proof. destruct ts; reflexivity. Qed.

(** X12.  Splitting a row identifier at the dots loses nothing: no component
    contains a dot, joining the components with dots gives the identifier
    back, there is always at least one component, and the key [getId] returns
    is the last of them. *)
Theorem Split_components (oid : string) :
  Join (Split oid dot) dot = oid
  /\ Forall (fun t => hasDot t = false) (Split oid dot)
  /\ 0 < length (Split oid dot)
  /\ last (Split oid dot) = Some (getId oid).
Proof.
  split; [|split; [|split]].
  - induction oid as [|a rest IH]; [reflexivity|].
    simpl. destruct (Ascii.eqb a dot) eqn:Ha.
    + apply Ascii.eqb_eq in Ha as ->.
      pose proof (Split_nonempty rest dot) as Hne.
      destruct (Split rest dot) as [|t ts]; [congruence|].
      change (Join (EmptyString :: t :: ts) dot)
        with (String dot (Join (t :: ts) dot)).
      by rewrite IH.
    + pose proof (Split_nonempty rest dot) as Hne.
      destruct (Split rest dot) as [|t ts]; [congruence|].
      rewrite Join_cons_head. by rewrite IH.
  - induction oid as [|a rest IH]; [repeat constructor|].
    simpl. destruct (Ascii.eqb a dot) eqn:Ha.
    + constructor; [reflexivity | exact IH].
    + destruct (Split rest dot) as [|t ts]; [repeat constructor; simpl; by rewrite Ha|].
      inversion IH as [|? ? Ht Hts]; subst.
      constructor; [|exact Hts]. simpl. by rewrite Ha, Ht.
  - pose proof (Split_nonempty oid dot). destruct (Split oid dot); [congruence|].
    simpl. lia.
  - rewrite getId_last. pose proof (Split_nonempty oid dot) as Hne.
    induction (Split oid dot) as [|t [|u ts] IH]; [congruence|reflexivity|].
    apply IH. discriminate.
Qed.

(** ** Slots out of range, and what can make a goroutine panic *)

(** X13.  The label slices have [numberOfInterfaceLabels] slots: a label row
    handled for a slot at or beyond that number panics with an index out of
    range (after the type assertion has passed), whether its row index already
    has an entry or not. *)
Theorem label_slot_out_of_range_panics c i p s :
  labelsFull s -> numberOfInterfaceLabels <= i -> isBytes (Value p) ->
  handlePduAsLabel c i p s = Panic IndexOutOfRange.
Proof.
  intros Hf Hi Hb. unfold handlePduAsLabel.
  generalize (getId (Name p)) as k. intros k.
  destruct (Value p) as [| |b| | |]; try contradiction.
  destruct (interfaceLabels s !! k) as [sl|] eqn:Hl; simpl.
  - destruct (Hf _ _ Hl) as (Hlen & _).
    unfold setIndex. rewrite decide_False by lia. reflexivity.
  - unfold setIndex. simpl. rewrite decide_False by lia. reflexivity.
Qed.

Lemma label_slot_out_of_range_panics_witness :
  handlePduAsLabel labCollector 2
    (row ".1.3.6.1.2.1.31.1.1.1.1" "9" (octets "ge-0/0/0")) labelledScope
  = Panic IndexOutOfRange.
Proof.
  apply (label_slot_out_of_range_panics labCollector 2
           (row ".1.3.6.1.2.1.31.1.1.1.1" "9" (octets "ge-0/0/0")) labelledScope).
  - exact labelsFull_labelledScope.
  - unfold numberOfInterfaceLabels. lia.
  - exact I.
Defined.

Lemma walkRows_panic (I : scope -> Prop) (Q : panic -> Prop) oid rows final f s w :
  (forall n s, I s -> I (record (CallRow oid n) s)) ->
  (forall p s r, I s -> f p s = Ok r -> I (snd r)) ->
  (forall p s w, I s -> f p s = Panic w -> Q w) ->
  I s -> walkRows oid rows final f s = Panic w -> Q w.
Proof.
  intros Hrec Hok Hpanic. revert s.
  induction rows as [|p rest IH]; intros s Hs H; simpl in H; [discriminate|].
  destruct (f p (record (CallRow oid (Name p)) s)) as [r|w'] eqn:Hf; simpl in H.
  - destruct (fst r); [discriminate|].
    eapply IH; [|exact H]. eapply Hok; [|exact Hf]. by apply Hrec.
  - injection H as <-. eapply Hpanic; [|exact Hf]. by apply Hrec.
Qed.

Lemma Walk_panic net (I : scope -> Prop) (Q : panic -> Prop) oid f s w :
  (forall c s, I s -> I (record c s)) ->
  (forall p s r, I s -> f p s = Ok r -> I (snd r)) ->
  (forall p s w, I s -> f p s = Panic w -> Q w) ->
  I s -> Walk net oid f s = Panic w -> Q w.
Proof.
  intros Hrec Hok Hpanic Hs H. unfold Walk in H.
  destruct (walkRows oid _ _ f (record (CallWalk oid) s)) as [r|w'] eqn:Hw;
    simpl in H; [discriminate|].
  injection H as <-.
  eapply (walkRows_panic I Q); [| | | |exact Hw]; eauto.
Qed.

Lemma handlePduAsLabel_panic c i p s w :
  labelsFull s -> i < numberOfInterfaceLabels ->
  handlePduAsLabel c i p s = Panic w -> w = TypeAssertion.
Proof.
  intros Hf Hi H.
  destruct (decide (isBytes (Value p))) as [Hb|Hb].
  - destruct (handlePduAsLabel_full c i p s Hf Hi Hb) as (s' & Hs' & _). congruence.
  - unfold handlePduAsLabel in H.
    destruct (Value p); try (injection H as <-; reflexivity).
    exfalso. apply Hb. exact I.
Qed.

Lemma handlePduAsMetric_panic c d p conv s w :
  handlePduAsMetric c d p conv s = Panic w -> w = TypeAssertion.
Proof.
  unfold handlePduAsMetric. intros H.
  destruct (Value p); try (injection H as <-; reflexivity).
  destruct (NewConstMetric _ _ _ _); discriminate.
Qed.

Lemma fetchInterfaceLabelFromOid_panic net c t oid i s w :
  i < numberOfInterfaceLabels -> engineInv t s ->
  fetchInterfaceLabelFromOid net c oid i s = Panic w -> w = TypeAssertion.
Proof.
  intros Hi Hs H. unfold fetchInterfaceLabelFromOid in H.
  destruct (Walk net oid _ s) as [r|w'] eqn:Hw; simpl in H; [discriminate|].
  injection H as <-.
  eapply (Walk_panic net (engineInv t) (fun w => w = TypeAssertion));
    [| | |exact Hs|exact Hw].
  - intros c0 s0 Hs0. apply stable_record; [apply engineInv_stable|exact Hs0].
  - intros p s0 r Hs0 Hr. inv_bind Hr. injection Hr as <-. simpl.
    eapply engineInv_label; eassumption.
  - intros p s0 w0 Hs0 Hp. cbv beta in Hp.
    destruct (handlePduAsLabel c i p s0) as [s1|w1] eqn:Hh; simpl in Hp;
      [discriminate|].
    injection Hp as <-. eapply handlePduAsLabel_panic; [exact (proj1 Hs0)|exact Hi|exact Hh].
Qed.

Lemma fetchInterfaceMetricFromOid_panic net c oid d conv s w :
  fetchInterfaceMetricFromOid net c oid d conv s = Panic w -> w = TypeAssertion.
Proof.
  intros H. unfold fetchInterfaceMetricFromOid in H.
  destruct (Walk net oid _ s) as [r|w'] eqn:Hw; simpl in H; [discriminate|].
  injection H as <-.
  eapply (Walk_panic net (fun _ => True) (fun w => w = TypeAssertion));
    [| | |exact I|exact Hw]; auto.
  intros p s0 w0 _. apply handlePduAsMetric_panic.
Qed.

(** X14.  The only way a goroutine started by [Collect] panics is the type
    assertion of a row handler: never an index out of range, never a call
    through a nil connection; and it happens only on a device that delivers a
    row of a type the handlers do not expect. *)
Theorem goroutine_panics_only_on_type_assertion net c t w :
  collectForTarget net c t = Panic w ->
  w = TypeAssertion /\ ~ wellTyped (net t).
Proof.
  intros H. split.
  - unfold collectForTarget in H.
    destruct (collectMetrics net c (newScope c t)) as [s|w'] eqn:Hm; simpl in H.
    { destruct (err s); discriminate. }
    injection H as <-. unfold collectMetrics in Hm.
    change (fst (Connect net (newScope c t))) with (connectResult (net t)) in Hm.
    change (Conn (snmp (snd (Connect net (newScope c t)))))
      with (bool_decide (connectResult (net t) = None)) in Hm.
    pose proof (Connect_engineInv net t _ (engineInv_newScope c t)) as H0.
    destruct (connectResult (net t)) as [e|]; [discriminate|].
    rewrite bool_decide_true in Hm by reflexivity.
    assert (forall oid i a b, i < numberOfInterfaceLabels -> engineInv t a ->
              fetchInterfaceLabelFromOid net c oid i a = Ok b -> engineInv t b) as HL.
    { intros oid i a b Hi Ha Hab.
      eapply (fetchInterfaceLabelFromOid_inv net c (engineInv t));
        [apply engineInv_stable| |exact Ha|exact Hab].
      intros p x y Hx Hxy. eapply engineInv_label; eassumption. }
    destruct (fetchInterfaceLabelFromOid net c ".1.3.6.1.2.1.31.1.1.1.1" 0 _)
      as [s1|w1] eqn:H1; simpl in Hm.
    2:{ injection Hm as <-.
        eapply fetchInterfaceLabelFromOid_panic; [|exact H0|exact H1].
        unfold numberOfInterfaceLabels. lia. }
    apply HL in H1; [|unfold numberOfInterfaceLabels; lia|exact H0].
    destruct (fetchInterfaceLabelFromOid net c ".1.3.6.1.2.1.31.1.1.1.18" 1 s1)
      as [s2|w2] eqn:H2; simpl in Hm.
    2:{ injection Hm as <-.
        eapply fetchInterfaceLabelFromOid_panic; [|exact H1|exact H2].
        unfold numberOfInterfaceLabels. lia. }
    repeat match type of Hm with
    | (fetchInterfaceMetricFromOid net c ?o ?d ?k ?x ≫= _) = Panic _ =>
        let E := fresh "E" in
        destruct (fetchInterfaceMetricFromOid net c o d k x) eqn:E; simpl in Hm;
        [|injection Hm as <-; exact (fetchInterfaceMetricFromOid_panic _ _ _ _ _ _ _ E)]
    end.
    discriminate.
  - intros Hw. destruct (collectForTarget_total net c t Hw) as (s & Hs). congruence.
Qed.

Lemma goroutine_panics_only_on_type_assertion_witness :
  TypeAssertion = TypeAssertion /\ ~ wellTyped (lab "10.0.0.3").
Proof.
  apply (goroutine_panics_only_on_type_assertion lab mistypedCollector "10.0.0.3"
           TypeAssertion).
  vm_compute. reflexivity.
Defined.

(** ** No target *)

(** X15.  With an empty target list [Collect] starts no goroutine: it
    returns, and the only possible content of the sink is nothing at all, not
    even a reachability metric. *)
Theorem Collect_without_targets net c sink :
  targets c = [] -> (Collect net c sink <-> sink = []).
Proof.
  intros Ht. unfold Collect. rewrite Ht. split.
  - intros (scopes & Hs & Hi). inversion Hs; subst.
    apply interleaving_Permutation in Hi. simpl in Hi.
    by apply Permutation_nil_r in Hi.
  - intros ->. exists []. split; constructor. constructor.
Qed.

Lemma Collect_without_targets_witness :
  Collect lab (NewJunosCollector [] "public") [] <-> @nil (option Metric) = [].
Proof.
  apply (Collect_without_targets lab (NewJunosCollector [] "public") []).
  reflexivity.
Defined.

(** ** Converters and float64 *)










Example converters_on_small_values :
  bitsToBytes 0%Z = 0%Z /\ bitsToBytes 8000%Z = 1000%Z
  /\ bitsToBytes 8007%Z = 1000%Z /\ noConvert 4294967295%Z = 4294967295%Z.
Proof. repeat split; vm_compute; reflexivity. Qed.

(** [roundFloat64] agrees with the binary64 arithmetic of the kernel where the
    two can be compared: the integer and its rounding convert to the same
    float, and a neighbour of the rounding does not. *)
Example roundFloat64_agrees_with_binary64 :
  PrimFloat.eqb (kernelFloat64 (2 ^ 61 - 1)) (kernelFloat64 (roundFloat64 (2 ^ 61 - 1))) = true
  /\ PrimFloat.eqb (kernelFloat64 (2 ^ 53 + 1)) (kernelFloat64 (roundFloat64 (2 ^ 53 + 1))) = true
  /\ PrimFloat.eqb (kernelFloat64 (2 ^ 53 + 3)) (kernelFloat64 (roundFloat64 (2 ^ 53 + 3))) = true
  /\ roundFloat64 (2 ^ 53 + 3) = (2 ^ 53 + 4)%Z
  /\ PrimFloat.eqb (kernelFloat64 (2 ^ 62 + 2 ^ 9 + 1))
                   (kernelFloat64 (roundFloat64 (2 ^ 62 + 2 ^ 9 + 1))) = true
  /\ PrimFloat.eqb (kernelFloat64 (2 ^ 62 + 2 ^ 9 + 1)) (kernelFloat64 (2 ^ 62)) = false.
Proof.
  split; [vm_compute; reflexivity|]. split; [vm_compute; reflexivity|].
  split; [vm_compute; reflexivity|]. split; [vm_compute; reflexivity|].
  split; vm_compute; reflexivity.
Qed.

(** ** Descriptors and bindings *)

(** Any counter walk that returns: it turned a prefix of the table into
    metrics, and stopped at the end of the table or at a row without labels. *)
Lemma walkRows_metric_shape c oid d conv s0 rows final s r :
  labelsFull s0 -> d ∈ interfaceDescs -> tableKept s0 s -> snmp s = snmp s0 ->
  walkRows oid rows final (fun pdu s => handlePduAsMetric c d pdu conv s) s = Ok r ->
  exists k,
    Forall (labelledRow s0) (take k rows)
    /\ ch (snd r) = ch s ++ map (rowMetric d conv s0) (take k rows)
    /\ tableKept s0 (snd r) /\ snmp (snd r) = snmp s0
    /\ (k = length rows
        \/ exists p, rows !! k = Some p /\ interfaceLabels s0 !! getId (Name p) = None).
Proof.
  intros Hf Hd. revert s.
  induction rows as [|p rows IH]; intros s Hk Hsn H.
  - simpl in H. injection H as <-. exists 0. simpl. rewrite app_nil_r.
    split; [constructor|]. auto.
  - cbn [walkRows] in H. inv_bind H.
    destruct (handlePduAsMetric_frame _ _ _ _ _ _ Ha) as (Hu & _).
    destruct (interfaceLabels s0 !! getId (Name p)) as [sl|] eqn:Hl.
    + assert (labelledRow s0 p) as Hrow by (split; [exact Hu | eauto]).
      destruct (labelledRow_metric c d conv s0 (record (CallRow oid (Name p)) s) p
                  Hf Hk Hsn Hd Hrow) as (arr & Hrun).
      rewrite Hrun in Ha. injection Ha as <-. cbn [fst snd] in H.
      assert (tableKept s0
                (send (rowMetric d conv s0 p)
                   (set_arrays (arrays (record (CallRow oid (Name p)) s) ++ [arr])
                      (record (CallRow oid (Name p)) s)))) as Hk1.
      { eapply tableKept_trans; [exact Hk|].
        split; [reflexivity | by exists [arr]]. }
      destruct (IH _ Hk1 Hsn H) as (k & Hall & Hch & Hk' & Hsn' & Hstop).
      exists (S k). simpl. split; [by constructor|].
      split; [rewrite Hch; simpl; by rewrite <- app_assoc|].
      split; [exact Hk'|]. split; [exact Hsn'|].
      destruct Hstop as [->|Hstop]; [by left | by right].
    + destruct (Value p) as [| | |v| |] eqn:Hv; try contradiction.
      pose proof (tableKept_labelsFull _ _ Hf Hk) as Hf'.
      destruct (handlePduAsMetric_unlabelled c d conv p v
                  (record (CallRow oid (Name p)) s)) as (_ & arr & Hrun);
        [exact Hf'|exact Hd|exact Hv|simpl; by rewrite (proj1 Hk)|].
      rewrite Hrun in Ha. injection Ha as <-. cbn [fst snd] in H.
      injection H as <-. exists 0. simpl. rewrite app_nil_r.
      split; [constructor|]. split; [reflexivity|].
      split; [eapply tableKept_trans; [exact Hk|];
              split; [reflexivity | by exists [arr]]|].
      split; [exact Hsn|]. right. eauto.
Qed.

Lemma fetchInterfaceMetricFromOid_shape net c oid d conv s0 s s' :
  labelsFull s0 -> d ∈ interfaceDescs -> tableKept s0 s -> snmp s = snmp s0 ->
  fetchInterfaceMetricFromOid net c oid d conv s = Ok s' ->
  exists k,
    Forall (labelledRow s0) (take k (fst (tables (net (Target (snmp s0))) oid)))
    /\ ch s' = ch s ++ map (rowMetric d conv s0)
                          (take k (fst (tables (net (Target (snmp s0))) oid)))
    /\ tableKept s0 s' /\ snmp s' = snmp s0
    /\ (k = length (fst (tables (net (Target (snmp s0))) oid))
        \/ exists p, fst (tables (net (Target (snmp s0))) oid) !! k = Some p
                     /\ interfaceLabels s0 !! getId (Name p) = None).
Proof.
  intros Hf Hd Hk Hsn H. unfold fetchInterfaceMetricFromOid, Walk in H.
  rewrite Hsn in H. inv_bind H. injection H as <-. inv_bind Ha. injection Ha as <-.
  destruct (walkRows_metric_shape c oid d conv s0 _ _ (record (CallWalk oid) s) a0
              Hf Hd Hk Hsn Ha0) as (k & Hall & Hch & Hk' & Hsn' & Hstop).
  exists k. split; [exact Hall|]. cbn [fst snd].
  match goal with |- context [keepFirst ?e ?x] =>
    destruct (keepFirst_fields e x) as (Hl & Hs & Hc & Harr & _) end.
  rewrite Hc, Hs. split; [exact Hch|]. split; [|split; [exact Hsn'|exact Hstop]].
  destruct Hk' as [K1 K2]. split; [by rewrite Hl | by rewrite Harr].
Qed.

(** A label walk that returns found a byte string in every row. *)
Lemma walkRows_label_bytes c oid i rows final s r :
  walkRows oid rows final (labelCallback c i) s = Ok r ->
  Forall (fun p => isBytes (Value p)) rows.
Proof.
  revert s. induction rows as [|p rows IH]; intros s H; [constructor|].
  cbn [walkRows] in H. inv_bind H. unfold labelCallback in Ha. inv_bind Ha.
  injection Ha as <-. cbn [fst snd] in H.
  constructor; [|by eapply IH].
  by destruct (handlePduAsLabel_frame _ _ _ _ _ Ha0) as (Hb & _).
Qed.

Lemma fetchInterfaceLabelFromOid_view net c oid i s s' :
  tableInv s -> i < numberOfInterfaceLabels ->
  fetchInterfaceLabelFromOid net c oid i s = Ok s' ->
  tableInv s'
  /\ labelView s' =
     labelWalkView i (fst (tables (net (Target (snmp s))) oid)) (labelView s)
  /\ ch s' = ch s /\ snmp s' = snmp s.
Proof.
  intros Hinv Hi H. unfold fetchInterfaceLabelFromOid, Walk in H.
  change (fun pdu s0 => s'0 ← handlePduAsLabel c i pdu s0; Ok (None, s'0))
    with (labelCallback c i) in H.
  inv_bind H. injection H as <-. inv_bind Ha. injection Ha as <-.
  pose proof (walkRows_label_bytes _ _ _ _ _ _ _ Ha0) as Hbytes.
  destruct (walkRows_labels c oid i _ (snd (tables (net (Target (snmp s))) oid))
              (record (CallWalk oid) s) Hinv Hi Hbytes)
    as (s1 & Hrun & I1 & V1 & _ & Ch1 & _ & S1).
  rewrite Hrun in Ha0. injection Ha0 as <-. cbn [fst snd].
  match goal with |- context [keepFirst ?e ?x] =>
    destruct (keepFirst_fields e x) as (Hl & Hs & Hc & Harr & _) end.
  split; [|split; [|split]].
  - destruct I1 as [F1 Sep1]. split.
    + intros id sl Hsl. rewrite Hl in Hsl. rewrite Harr. exact (F1 id sl Hsl).
    + intros id1 id2 sl1 sl2 H1 H2. rewrite Hl in H1, H2. exact (Sep1 _ _ _ _ H1 H2).
  - unfold labelView. rewrite Hl, Harr. exact V1.
  - rewrite Hc. exact Ch1.
  - rewrite Hs. exact S1.
Qed.

(** C8.  [Describe] sends seven descriptors, the same whatever the collector
    was configured with: they are pairwise distinct, named [junos_up] and the
    six [junos_interface_...] names, the first labelled by [target] and the
    others by [name], [description], [target].  And in every run that returns
    after a successful session setup the bindings of the spec's table are
    observed: the tables walked are the two label tables and the six counter
    tables, by their OIDs and in that order; the label table the counter walks
    start from is the rows of [.1.3.6.1.2.1.31.1.1.1.1] written in slot 0 and
    then the rows of [.1.3.6.1.2.1.31.1.1.1.18] written in slot 1; and what is
    sent is, binding after binding, the metrics of the rows of that binding's
    table, each with that binding's descriptor and the value given by that
    binding's converter, up to the end of the table or the first row without
    labels, followed by the reachability metric. *)
Theorem describe_and_bindings net c :
  length (Describe c) = 7
  /\ NoDup (Describe c)
  /\ (forall c', Describe c' = Describe c)
  /\ map fqName (Describe c) =
     ["junos_up"; "junos_interface_receive_bytes"; "junos_interface_receive_errors";
      "junos_interface_receive_drops"; "junos_interface_transmit_bytes";
      "junos_interface_transmit_drops"; "junos_interface_transmit_errors"]
  /\ map variableLabels (Describe c) =
     ["target"] :: replicate 6 ["name"; "description"; "target"]
  /\ (forall t s,
        collectForTarget net c t = Ok s -> connectResult (net t) = None ->
        walked (calls s) =
          map fst specLabelBindings ++ map (fun b => fst (fst b)) specCounterBindings
        /\ exists sL ks,
             afterLabels net c t = Ok sL
             /\ labelView sL =
                foldl (fun m b => labelWalkView (snd b) (fst (tables (net t) (fst b))) m)
                      ∅ specLabelBindings
             /\ Forall2 (stoppedAt net t sL) specCounterBindings ks
             /\ ch s = concat (zip_with (emittedBy net t sL) specCounterBindings ks)
                       ++ [upOf t (upValue s)]).
Proof.
  split; [reflexivity|]. split.
  { unfold Describe. apply (bool_decide_unpack _). by vm_compute. }
  split; [reflexivity|]. split; [reflexivity|]. split; [reflexivity|].
  intros t s H Hc.
  apply collectForTarget_Ok in H as (s0 & H0 & _ & ->).
  split.
  { exact (collectMetrics_walked net c (newScope c t) s0 Hc H0). }
  apply collectMetrics_Ok in H0 as [(e & Hc' & _) | (_ & s1 & s2 & s3 & s4 & s5 & s6 & s7
      & s8 & H1 & H2 & H3 & H4 & H5 & H6 & H7 & H8 & ->)]; [simpl in Hc'; congruence|].
  assert (afterLabels net c t = Ok s2) as HL.
  { unfold afterLabels. rewrite H1. exact H2. }
  assert (tableInv (snd (Connect net (newScope c t)))) as I0.
  { split.
    - intros id sl Hl. simpl in Hl. by rewrite lookup_empty in Hl.
    - intros id1 id2 sl1 sl2 Hl. simpl in Hl. by rewrite lookup_empty in Hl. }
  assert (0 < numberOfInterfaceLabels /\ 1 < numberOfInterfaceLabels) as [N0 N1]
    by (unfold numberOfInterfaceLabels; lia).
  destruct (fetchInterfaceLabelFromOid_view net c _ 0 _ s1 I0 N0 H1)
    as (I1 & V1 & C1 & S1).
  destruct (fetchInterfaceLabelFromOid_view net c _ 1 _ s2 I1 N1 H2)
    as (I2 & V2 & C2 & S2).
  assert (Target (snmp s2) = t) as Ht by (rewrite S2, S1; reflexivity).
  assert (ch s2 = []) as Hch2 by (rewrite C2, C1; reflexivity).
  pose proof (proj1 I2) as Hf.
  assert (forall oid d conv a b, d ∈ interfaceDescs ->
            tableKept s2 a -> snmp a = snmp s2 ->
            fetchInterfaceMetricFromOid net c oid d conv a = Ok b ->
            exists k, stoppedAt net t s2 (oid, d, conv) k
                      /\ ch b = ch a ++ emittedBy net t s2 (oid, d, conv) k
                      /\ tableKept s2 b /\ snmp b = snmp s2) as Hstep.
  { intros oid d conv a b Hd Hk Hsn Hab.
    destruct (fetchInterfaceMetricFromOid_shape net c oid d conv s2 a b Hf Hd Hk Hsn Hab)
      as (k & Hall & Hch & Hk' & Hsn' & Hstop).
    rewrite Ht in Hall, Hch, Hstop. exists k. unfold stoppedAt, emittedBy. simpl.
    auto. }
  destruct (Hstep _ receiveBytesDesc _ _ _ ltac:(solve [repeat constructor]) (tableKept_refl s2) eq_refl H3)
    as (k3 & T3 & E3 & K3 & S3).
  destruct (Hstep _ transmitBytesDesc _ _ _ ltac:(solve [repeat constructor]) K3 S3 H4)
    as (k4 & T4 & E4 & K4 & S4).
  destruct (Hstep _ receiveDropsDesc _ _ _ ltac:(solve [repeat constructor]) K4 S4 H5)
    as (k5 & T5 & E5 & K5 & S5).
  destruct (Hstep _ receiveErrorsDesc _ _ _ ltac:(solve [repeat constructor]) K5 S5 H6)
    as (k6 & T6 & E6 & K6 & S6).
  destruct (Hstep _ transmitDropsDesc _ _ _ ltac:(solve [repeat constructor]) K6 S6 H7)
    as (k7 & T7 & E7 & K7 & S7).
  destruct (Hstep _ transmitErrorsDesc _ _ _ ltac:(solve [repeat constructor]) K7 S7 H8)
    as (k8 & T8 & E8 & K8 & S8).
  exists s2, [k3; k4; k5; k6; k7; k8].
  split; [exact HL|]. split; [|split].
  - simpl. rewrite V2, V1, S1. reflexivity.
  - unfold specCounterBindings. repeat (constructor; [assumption|]). constructor.
  - unfold upMetric, upValue. simpl.
    rewrite E8, E7, E6, E5, E4, E3, Hch2. simpl.
    rewrite app_nil_r, <- !app_assoc. reflexivity.
Qed.

Lemma describe_and_bindings_witness :
  walked (calls sparseRun) =
    map fst specLabelBindings ++ map (fun b => fst (fst b)) specCounterBindings
  /\ exists sL ks,
       afterLabels lab labCollector "10.0.0.4" = Ok sL
       /\ labelView sL =
          foldl (fun m b =>
                   labelWalkView (snd b) (fst (tables (lab "10.0.0.4") (fst b))) m)
                ∅ specLabelBindings
       /\ Forall2 (stoppedAt lab "10.0.0.4" sL) specCounterBindings ks
       /\ ch sparseRun =
          concat (zip_with (emittedBy lab "10.0.0.4" sL) specCounterBindings ks)
          ++ [upOf "10.0.0.4" (upValue sparseRun)].
Proof.
  apply (proj2 (proj2 (proj2 (proj2 (proj2
           (describe_and_bindings lab labCollector))))) "10.0.0.4" sparseRun).
  - vm_compute. reflexivity.
  - reflexivity.
Defined.

(** ** The key of a row, stored and looked up *)

Lemma labelsOf_length s id ls :
  labelsFull s -> labelsOf s id = Some ls -> length ls = numberOfInterfaceLabels.
Proof.
  intros Hf H. unfold labelsOf in H.
  destruct (interfaceLabels s !! id) as [sl|] eqn:E; [|discriminate].
  injection H as <-. destruct (Hf _ _ E) as (Hl & _ & _ & Ha).
  rewrite elems_full by lia. exact Ha.
Qed.

(** A label row is written under the last component of its name, in its
    slot, and no other entry changes. *)
Lemma handlePduAsLabel_stores c i p s :
  tableInv s -> i < numberOfInterfaceLabels -> isBytes (Value p) ->
  exists s',
    handlePduAsLabel c i p s = Ok s'
    /\ tableInv s'
    /\ dom (interfaceLabels s') = {[getId (Name p)]} ∪ dom (interfaceLabels s)
    /\ labelsOf s' (getId (Name p)) =
       Some (<[i := labelValue p]> (default emptyLabels (labelsOf s (getId (Name p)))))
    /\ (forall id, id <> getId (Name p) -> labelsOf s' id = labelsOf s id)
    /\ ch s' = ch s /\ snmp s' = snmp s.
Proof.
  intros Hinv Hi Hb.
  destruct (handlePduAsLabel_view c i p s Hinv Hi Hb) as (s' & H & Hinv' & Hv).
  exists s'. split; [exact H|]. split; [exact Hinv'|].
  split; [exact (handlePduAsLabel_dom _ _ _ _ _ H)|].
  destruct (handlePduAsLabel_frame _ _ _ _ _ H) as (_ & Hsn & Hch & _).
  split; [|split; [|by split]].
  - rewrite <- !labelView_lookup, Hv. unfold recordLabel.
    by rewrite lookup_insert_eq.
  - intros id Hid. rewrite <- !labelView_lookup, Hv. unfold recordLabel.
    by rewrite lookup_insert_ne.
Qed.

(** A counter row looks up the last component of its name: with an entry it
    sends the metric carrying that entry's labels and the target, without one
    it sends nothing and reports the cardinality error. *)
Lemma handlePduAsMetric_lookup c d conv p v s :
  labelsFull s -> d ∈ interfaceDescs -> Value p = VUint v ->
  exists r,
    handlePduAsMetric c d p conv s = Ok r
    /\ interfaceLabels (snd r) = interfaceLabels s
    /\ match labelsOf s (getId (Name p)) with
       | Some ls =>
           fst r = None
           /\ ch (snd r) =
              ch s ++ [Some (ConstMetric d GaugeValue (conv v) (ls ++ [Target (snmp s)]))]
       | None => fst r = Some errInconsistentCardinality /\ ch (snd r) = ch s
       end.
Proof.
  intros Hf Hd Hv. unfold labelsOf.
  destruct (interfaceLabels s !! getId (Name p)) as [sl|] eqn:E.
  - assert (labelledRow s p) as Hrow.
    { split; [by rewrite Hv | by rewrite E]. }
    destruct (labelledRow_metric c d conv s s p Hf (tableKept_refl s) eq_refl Hd Hrow)
      as (arr & H).
    eexists. split; [exact H|]. split; [reflexivity|]. simpl. split; [reflexivity|].
    unfold rowMetric, rowLabels, labelsOf. by rewrite Hv, E.
  - destruct (handlePduAsMetric_unlabelled c d conv p v s Hf Hd Hv E) as (_ & arr & H).
    eexists. split; [exact H|]. by split.
Qed.

(** C9.  The key [getId] extracts from a row identifier is its last
    dot-separated component: it contains no dot and the identifier is the key
    itself or ends with a dot followed by the key; it is the only such string;
    and an identifier without a dot is its own key.  That key is the one both
    walks use.  A label row named [oid] is written under [getId oid], in its
    slot, and changes no other entry.  A counter row named [oid] reads the
    entry of [getId oid]: with an entry it sends the metric with that entry's
    labels followed by the target, without one it sends nothing and reports
    the cardinality error.  So a counter row carries the label a label row
    has written whenever the two names have the same last component, whatever
    comes before it.  Nothing else of the name is used: two rows with the same
    key and value are handled alike, in a label walk as in a counter walk. *)
Theorem getId_is_last_component (oid : string) :
  lastComponent oid (getId oid)
  /\ (forall k, lastComponent oid k -> k = getId oid)
  /\ (hasDot oid = false -> getId oid = oid)
  /\ (forall c i p s,
        Name p = oid -> tableInv s -> i < numberOfInterfaceLabels ->
        isBytes (Value p) ->
        exists s',
          handlePduAsLabel c i p s = Ok s'
          /\ dom (interfaceLabels s') = {[getId oid]} ∪ dom (interfaceLabels s)
          /\ labelsOf s' (getId oid) =
             Some (<[i := labelValue p]> (default emptyLabels (labelsOf s (getId oid))))
          /\ (forall id, id <> getId oid -> labelsOf s' id = labelsOf s id))
  /\ (forall c d conv p v s,
        Name p = oid -> labelsFull s -> d ∈ interfaceDescs -> Value p = VUint v ->
        exists r,
          handlePduAsMetric c d p conv s = Ok r
          /\ match labelsOf s (getId oid) with
             | Some ls =>
                 fst r = None
                 /\ ch (snd r) =
                    ch s ++ [Some (ConstMetric d GaugeValue (conv v)
                                     (ls ++ [Target (snmp s)]))]
             | None => fst r = Some errInconsistentCardinality /\ ch (snd r) = ch s
             end)
  /\ (forall c i d conv p q v s,
        getId (Name p) = getId oid -> Name q = oid ->
        tableInv s -> i < numberOfInterfaceLabels -> isBytes (Value p) ->
        d ∈ interfaceDescs -> Value q = VUint v ->
        exists s' r ls,
          handlePduAsLabel c i p s = Ok s'
          /\ handlePduAsMetric c d q conv s' = Ok r
          /\ fst r = None
          /\ ch (snd r) =
             ch s ++ [Some (ConstMetric d GaugeValue (conv v) (ls ++ [Target (snmp s)]))]
          /\ length ls = numberOfInterfaceLabels
          /\ ls !! i = Some (labelValue p))
  /\ (forall c i p q s, Name p = oid -> getId (Name q) = getId oid ->
        Value p = Value q ->
        handlePduAsLabel c i p s = handlePduAsLabel c i q s)
  /\ (forall c d conv p q s, Name p = oid -> getId (Name q) = getId oid ->
        Value p = Value q ->
        handlePduAsMetric c d p conv s = handlePduAsMetric c d q conv s).
Proof.
  split; [apply getId_lastComponent|].
  split; [apply lastComponent_unique|].
  split; [apply getId_no_dot|].
  split; [|split; [|split; [|split]]].
  - intros c i p s <- Hinv Hi Hb.
    destruct (handlePduAsLabel_stores c i p s Hinv Hi Hb)
      as (s' & H & _ & Hdom & Hkey & Hother & _).
    by exists s'.
  - intros c d conv p v s <- Hf Hd Hv.
    destruct (handlePduAsMetric_lookup c d conv p v s Hf Hd Hv) as (r & H & _ & Hm).
    by exists r.
  - intros c i d conv p q v s Hid <- Hinv Hi Hb Hd Hv.
    destruct (handlePduAsLabel_stores c i p s Hinv Hi Hb)
      as (s' & H & Hinv' & _ & Hkey & _ & Hch & Hsn).
    destruct (handlePduAsMetric_lookup c d conv q v s' (proj1 Hinv') Hd Hv)
      as (r & Hr & _ & Hm).
    rewrite <- Hid, Hkey, Hch, Hsn in Hm. destruct Hm as [Hm1 Hm2].
    exists s', r. eexists. split; [exact H|]. split; [exact Hr|].
    split; [exact Hm1|]. split; [exact Hm2|].
    assert (length (default emptyLabels (labelsOf s (getId (Name p))))
            = numberOfInterfaceLabels) as Hlen.
    { destruct (labelsOf s (getId (Name p))) as [ls|] eqn:E; simpl.
      - exact (labelsOf_length _ _ _ (proj1 Hinv) E).
      - reflexivity. }
    split.
    + by rewrite length_insert.
    + apply list_lookup_insert_eq. by rewrite Hlen.
  - intros c i p q s <- Hid Hv. by apply handlePduAsLabel_by_id.
  - intros c d conv p q s <- Hid Hv. by apply handlePduAsMetric_by_id.
Qed.

(** Row 9 of the name table, then row 9 of the receive-bytes table: the
    metric carries the name. *)
Lemma getId_is_last_component_witness :
  exists s' r ls,
    handlePduAsLabel labCollector 0
      (row ".1.3.6.1.2.1.31.1.1.1.1" "9" (octets "ge-0/0/0"))
      (newScope labCollector "10.0.0.1") = Ok s'
    /\ handlePduAsMetric labCollector receiveBytesDesc
         (row ".1.3.6.1.2.1.2.2.1.10" "9" (VUint 8000%Z)) bitsToBytes s' = Ok r
    /\ fst r = None
    /\ ch (snd r) =
       [] ++ [Some (ConstMetric receiveBytesDesc GaugeValue (bitsToBytes 8000%Z)
                      (ls ++ ["10.0.0.1"]))]
    /\ length ls = numberOfInterfaceLabels
    /\ ls !! 0 = Some "ge-0/0/0".
Proof.
  apply (proj1 (proj2 (proj2 (proj2 (proj2 (proj2
           (getId_is_last_component ".1.3.6.1.2.1.2.2.1.10.9"))))))
         labCollector 0 receiveBytesDesc bitsToBytes
         (row ".1.3.6.1.2.1.31.1.1.1.1" "9" (octets "ge-0/0/0"))
         (row ".1.3.6.1.2.1.2.2.1.10" "9" (VUint 8000%Z)) 8000%Z
         (newScope labCollector "10.0.0.1")).
  - reflexivity.
  - reflexivity.
  - apply tableInv_newScope.
  - unfold numberOfInterfaceLabels. lia.
  - exact I.
  - unfold interfaceDescs. repeat constructor.
  - reflexivity.
Defined.

(** A counter row whose name ends in another component than the label rows
    written so far is rejected, even when the names agree up to that
    component. *)
Example other_last_component_is_not_correlated :
  exists s' r,
    handlePduAsLabel labCollector 0
      (row ".1.3.6.1.2.1.31.1.1.1.1" "9" (octets "ge-0/0/0"))
      (newScope labCollector "10.0.0.1") = Ok s'
    /\ handlePduAsMetric labCollector receiveBytesDesc
         (row ".1.3.6.1.2.1.31.1.1.1.1" "90" (VUint 8000%Z)) bitsToBytes s' = Ok r
    /\ fst r = Some errInconsistentCardinality /\ ch (snd r) = [].
Proof. do 2 eexists. split; [vm_compute; reflexivity|]. vm_compute. auto. Qed.
